(** * OBF: basic and ordinal bloom filters

    A shallow embedding of [src/obf/basic_bloom_filter.h] and
    [src/obf/ordinal_bloom_filter.h].

    - [size_type] ([std::uint64_t]) is a [Z] with the wrap-around modulo
      [2^64] written out; [elem_type] ([std::uint8_t]) is a [Z] reduced
      modulo [2^8] where the source narrows.
    - [double] is Rocq's primitive binary64 [float]; [std::ceil],
      [std::round] and the two conversions between [double] and
      [size_type] are defined on its specification [spec_float].
    - [std::log] and [MurmurHash3_x64_128] are external: both are
      parameters of the development.
    - [std::vector] is a [list]; [operator[]] outside the vector, a
      remainder by zero and a conversion of an unrepresentable [double]
      have undefined behaviour in C++ and give [Undefined] here.
    - [double] expressions are evaluated in binary64, rounding to
      nearest, and the memory the allocator can provide is taken to be
      unbounded.
    - An element is its object representation, the [sizeof(T)] bytes
      the hash reads. *)

From Stdlib Require Import ZArith Floats Lia String.
From stdpp Require Import base list.

Open Scope Z_scope.

(** ** Outcomes of a call *)

Inductive exception : Type :=
| range_error (what : string).

Inductive result (A : Type) : Type :=
| Ok (a : A)
| Throw (e : exception)
| Undefined
| OutOfFuel.

Arguments Ok {A} a.
Arguments Throw {A} e.
Arguments Undefined {A}.
Arguments OutOfFuel {A}.

#[global] Instance result_bind : MBind result := fun _ _ f r =>
  match r with
  | Ok a => f a
  | Throw e => Throw e
  | Undefined => Undefined
  | OutOfFuel => OutOfFuel
  end.

(** ** Machine integers *)

Definition size_type_modulus : Z := 2 ^ 64.
Definition elem_type_modulus : Z := 2 ^ 8.

(** Arithmetic on [size_type] is modulo [2^64]. *)
Definition wrap64 (z : Z) : Z := z mod size_type_modulus.

(** [static_cast<elem_type>(i)] keeps the low eight bits. *)
Definition static_cast_elem_type (i : Z) : Z := i mod elem_type_modulus.

(** ** [std::vector] *)

(** [v[i]] read: undefined outside the vector. *)
Definition vector_get {A : Type} (v : list A) (i : Z) : result A :=
  if i <? 0 then Undefined
  else match v !! Z.to_nat i with
       | Some x => Ok x
       | None => Undefined
       end.

(** [v[i] = x]: undefined outside the vector. *)
Definition vector_set {A : Type} (v : list A) (i : Z) (x : A) : result (list A) :=
  if i <? 0 then Undefined
  else if (Z.to_nat i <? length v)%nat then Ok (<[Z.to_nat i := x]> v)
  else Undefined.

(** [std::vector<A>(n, x)]. *)
Definition vector_fill {A : Type} (n : Z) (x : A) : list A :=
  replicate (Z.to_nat n) x.

(** [std::swap(a, b)]: the new values of [a] and [b]. *)
Definition std_swap {A : Type} (a b : A) : A * A := (b, a).

(** ** [double] *)

(** [static_cast<double>(n)] for an integer [n]: the nearest [double],
    ties to even. *)
Definition static_cast_double (n : Z) : float :=
  SF2Prim (binary_normalize prec emax n 0 false).

(** The [double] of integer value [(-1)^s * n], with the sign [s] kept on
    a zero. *)
Definition double_of_integer (s : bool) (n : Z) : float :=
  SF2Prim (binary_normalize prec emax (cond_Zopp s n) 0 s).

(** [std::ceil]: the least integer not below [x]; zeros, infinities and
    NaN are returned as they are. *)
Definition ceil (x : float) : float :=
  match Prim2SF x with
  | S754_finite s m e =>
      if 0 <=? e then x
      else
        let q := Z.pos m / 2 ^ (- e) in
        let r := Z.pos m mod 2 ^ (- e) in
        if s then double_of_integer true q
        else double_of_integer false (if r =? 0 then q else q + 1)
  | _ => x
  end.

(** [std::round]: the nearest integer, halfway cases away from zero. *)
Definition round (x : float) : float :=
  match Prim2SF x with
  | S754_finite s m e =>
      if 0 <=? e then x
      else double_of_integer s ((2 * Z.pos m + 2 ^ (- e)) / (2 * 2 ^ (- e)))
  | _ => x
  end.

(** [static_cast<size_type>(x)]: [x] truncated towards zero; undefined
    when the truncated value is not a [size_type] (NaN and the infinities
    included). *)
Definition static_cast_size_type (x : float) : result Z :=
  match Prim2SF x with
  | S754_zero _ => Ok 0
  | S754_finite s m e =>
      let t := if 0 <=? e then Z.pos m * 2 ^ e else Z.pos m / 2 ^ (- e) in
      if s then (if t =? 0 then Ok 0 else Undefined)
      else if t <? size_type_modulus then Ok t else Undefined
  | _ => Undefined
  end.

(** The values the C library's [log] returns at the arguments the examples
    below use (each is the [double] nearest to the real logarithm); NaN
    elsewhere. *)
Definition log_sample (x : float) : float :=
  if (x =? 2)%float then 0x1.62e42fefa39efp-1%float
  else if (x =? 0x1.47ae147ae147bp-7)%float       (* 0.01 *)
       then (-0x1.26bb1bbb55515p+2)%float
  else if (x =? 0x1.ccccccccccccdp-1)%float       (* 0.9 *)
       then (-0x1.af8e8210a415cp-4)%float
  else if (x =? 0x1.bff2ee48e053p-333)%float      (* 1e-100 *)
       then (-0x1.cc845b54b54f2p+7)%float
  else nan.

(** * BasicBloomFilter *)

Module BasicBloomFilter.

Record t : Type := Build {
  _bits : list bool;
  _bit_array_size : Z;
  _hash_func_num : Z;
}.

Definition with_bits (this : t) (bits : list bool) : t :=
  Build bits this.(_bit_array_size) this.(_hash_func_num).

Section Filter.

Context {T : Type}.
(** [MurmurHash3_x64_128(p, sizeof(T), seed, out)]: the two words written
    to [out]. *)
Variable MurmurHash3_x64_128 : T -> Z -> Z * Z.
(** [std::log]. *)
Variable log : float -> float.

Definition BasicBloomFilter (false_positive : float) (capacity : Z) : result t :=
  if ((false_positive <=? 0) || (1 <=? false_positive))%float then
    Throw (range_error "false positive is invalie.")
  else
    let ln2 := log 2%float in
    bit_array_size ←
      static_cast_size_type
        (ceil (- (static_cast_double capacity * log false_positive / (ln2 * ln2)))%float);
    let bits := vector_fill bit_array_size false in
    let fractor :=
      (static_cast_double bit_array_size / static_cast_double capacity)%float in
    hash_func_num ← static_cast_size_type (round (fractor * ln2)%float);
    Ok (Build bits bit_array_size hash_func_num).

(** The move constructor: the new filter, and what is left in [rhs]
    ([std::vector]'s move constructor takes the storage over and leaves
    its source empty). *)
Definition move_ctor (rhs : t) : t * t :=
  (Build rhs.(_bits) rhs.(_bit_array_size) rhs.(_hash_func_num),
   Build [] 0 0).

Definition clear (this : t) : t :=
  with_bits this (vector_fill this.(_bit_array_size) false).

Definition hash_at_n (this : t) (p : T) (n : Z) : result Z :=
  let '(hash_a, hash_b) := MurmurHash3_x64_128 p 0 in
  if this.(_bit_array_size) =? 0 then Undefined
  else Ok (wrap64 (hash_a + n * hash_b) mod this.(_bit_array_size)).

Fixpoint add_loop (fuel : nat) (this : t) (elem : T) (i : Z) : result t :=
  if i <? this.(_hash_func_num) then
    match fuel with
    | O => OutOfFuel
    | S fuel' =>
        hash_val ← hash_at_n this elem i;
        bits ← vector_set this.(_bits) hash_val true;
        add_loop fuel' (with_bits this bits) elem (wrap64 (i + 1))
    end
  else Ok this.

Definition add (this : t) (elem : T) : result t :=
  add_loop (Z.to_nat this.(_hash_func_num)) this elem 0.

Fixpoint contains_loop (fuel : nat) (this : t) (elem : T) (i : Z) : result bool :=
  if i <? this.(_hash_func_num) then
    match fuel with
    | O => OutOfFuel
    | S fuel' =>
        hash_val ← hash_at_n this elem i;
        bit ← vector_get this.(_bits) hash_val;
        if negb (Bool.eqb bit true) then Ok false
        else contains_loop fuel' this elem (wrap64 (i + 1))
    end
  else Ok true.

Definition contains (this : t) (elem : T) : result bool :=
  contains_loop (Z.to_nat this.(_hash_func_num)) this elem 0.

(** [swap]: what is left in [this] and in [rhs]. *)
Definition swap (this rhs : t) : t * t :=
  let '(bits, rhs_bits) := std_swap this.(_bits) rhs.(_bits) in
  let '(bit_array_size, rhs_bit_array_size) :=
    std_swap this.(_bit_array_size) rhs.(_bit_array_size) in
  let '(hash_func_num, rhs_hash_func_num) :=
    std_swap this.(_hash_func_num) rhs.(_hash_func_num) in
  (Build bits bit_array_size hash_func_num,
   Build rhs_bits rhs_bit_array_size rhs_hash_func_num).


(** The cell that round [n] of element [p] lands on in an array of [size]
    cells: what [hash_at_n] returns when [size] is not zero. *)
Definition index (size : Z) (p : T) (n : Z) : Z :=
  let '(hash_a, hash_b) := MurmurHash3_x64_128 p 0 in
  wrap64 (hash_a + n * hash_b) mod size.

(** The invariant of a filter: [_bits] has [_bit_array_size] cells, both
    scalars are [size_type] values a [double] converts to, and an empty
    array comes with no hash round. *)
Definition wf (this : t) : Prop :=
  length this.(_bits) = Z.to_nat this.(_bit_array_size) /\
  0 <= this.(_bit_array_size) /\
  0 <= this.(_hash_func_num) < size_type_modulus - 1 /\
  (this.(_bit_array_size) = 0 -> this.(_hash_func_num) = 0).

(** A run of [add] calls, in order. *)
Fixpoint add_all (this : t) (elems : list T) : result t :=
  match elems with
  | [] => Ok this
  | elem :: elems' => this' ← add this elem; add_all this' elems'
  end.

(** The states a filter constructed from [(false_positive, capacity)] goes
    through under [add] and [clear]. *)
Inductive reachable (false_positive : float) (capacity : Z) : t -> Prop :=
| reachable_ctor this :
    BasicBloomFilter false_positive capacity = Ok this ->
    reachable false_positive capacity this
| reachable_add this elem this' :
    reachable false_positive capacity this ->
    add this elem = Ok this' ->
    reachable false_positive capacity this'
| reachable_clear this :
    reachable false_positive capacity this ->
    reachable false_positive capacity (clear this).

(** Round [i] of [add] on the array: [_bits[hash_val] = true]. *)
Definition set_round (size : Z) (elem : T) (bits : list bool) (i : Z) : list bool :=
  <[Z.to_nat (index size elem i) := true]> bits.

End Filter.

(** The number of bits that are set. *)
Definition popcount (bits : list bool) : nat :=
  length (filter (fun bit => bit = true) bits).

(** [operator=(BasicBloomFilter&&)]. The source compares [this] with
    [&rhs], so the two filters are objects of a store and are named by
    their addresses; an address with no object is undefined. [left] is
    what the move assignment of [std::vector] leaves in the vector it
    moves from (valid but unspecified). *)
Definition move_assign (left : list bool) (store : list t) (this rhs : nat)
    : result (list t) :=
  match store !! this, store !! rhs with
  | Some _, Some rhs_obj =>
      if negb (this =? rhs)%nat then
        let store := <[this := Build rhs_obj.(_bits) rhs_obj.(_bit_array_size)
                                 rhs_obj.(_hash_func_num)]> store in
        Ok (<[rhs := Build left 0 0]> store)
      else Ok store
  | _, _ => Undefined
  end.

End BasicBloomFilter.

(** * OrdinalBloomFilter *)

Module OrdinalBloomFilter.

(** [_bits] holds [elem_type] cells, each in [[0, 2^8)]. *)
Record t : Type := Build {
  _bits : list Z;
  _bit_array_size : Z;
  _hash_func_num : Z;
}.

Definition with_bits (this : t) (bits : list Z) : t :=
  Build bits this.(_bit_array_size) this.(_hash_func_num).

Section Filter.

Context {T : Type}.
Variable MurmurHash3_x64_128 : T -> Z -> Z * Z.
Variable log : float -> float.

Definition OrdinalBloomFilter (false_positive : float) (capacity : Z) : result t :=
  if ((false_positive <=? 0) || (1 <=? false_positive))%float then
    Throw (range_error "false positive is invalie.")
  else
    let ln2 := log 2%float in
    bit_array_size ←
      static_cast_size_type
        (ceil (- (static_cast_double capacity * log false_positive / (ln2 * ln2)))%float);
    let bits := vector_fill bit_array_size 0 in
    let fractor :=
      (static_cast_double bit_array_size / static_cast_double capacity)%float in
    hash_func_num ← static_cast_size_type (round (fractor * ln2)%float);
    Ok (Build bits bit_array_size hash_func_num).

(** The move constructor: the new filter, and what is left in [rhs]
    ([std::vector]'s move constructor takes the storage over and leaves
    its source empty). *)
Definition move_ctor (rhs : t) : t * t :=
  (Build rhs.(_bits) rhs.(_bit_array_size) rhs.(_hash_func_num),
   Build [] 0 0).

Definition clear (this : t) : t :=
  with_bits this (vector_fill this.(_bit_array_size) 0).

Definition hash_at_n (this : t) (p : T) (n : Z) : result Z :=
  let '(hash_a, hash_b) := MurmurHash3_x64_128 p 0 in
  if this.(_bit_array_size) =? 0 then Undefined
  else Ok (wrap64 (hash_a + n * hash_b) mod this.(_bit_array_size)).

(** One round of [add]: the body of its loop. *)
Definition add_round (this : t) (elem : T) (i : Z) : result t :=
  hash_val ← hash_at_n this elem i;
  cell ← vector_get this.(_bits) hash_val;
  if cell <? i then
    bits ← vector_set this.(_bits) hash_val (static_cast_elem_type i);
    Ok (with_bits this bits)
  else Ok this.

Fixpoint add_loop (fuel : nat) (this : t) (elem : T) (i : Z) : result t :=
  if i <=? this.(_hash_func_num) then
    match fuel with
    | O => OutOfFuel
    | S fuel' =>
        this' ← add_round this elem i;
        add_loop fuel' this' elem (wrap64 (i + 1))
    end
  else Ok this.

Definition add (this : t) (elem : T) : result t :=
  add_loop (Z.to_nat this.(_hash_func_num)) this elem 1.

Fixpoint contains_loop (fuel : nat) (this : t) (elem : T) (i : Z) : result bool :=
  if i <=? this.(_hash_func_num) then
    match fuel with
    | O => OutOfFuel
    | S fuel' =>
        hash_val ← hash_at_n this elem i;
        cell ← vector_get this.(_bits) hash_val;
        if cell <? i then Ok false
        else contains_loop fuel' this elem (wrap64 (i + 1))
    end
  else Ok true.

Definition contains (this : t) (elem : T) : result bool :=
  contains_loop (Z.to_nat this.(_hash_func_num)) this elem 1.

(** [swap]: what is left in [this] and in [rhs]. *)
Definition swap (this rhs : t) : t * t :=
  let '(bits, rhs_bits) := std_swap this.(_bits) rhs.(_bits) in
  let '(bit_array_size, rhs_bit_array_size) :=
    std_swap this.(_bit_array_size) rhs.(_bit_array_size) in
  let '(hash_func_num, rhs_hash_func_num) :=
    std_swap this.(_hash_func_num) rhs.(_hash_func_num) in
  (Build bits bit_array_size hash_func_num,
   Build rhs_bits rhs_bit_array_size rhs_hash_func_num).

(** The cell that round [n] of element [p] lands on in an array of [size]
    cells: what [hash_at_n] returns when [size] is not zero. *)
Definition index (size : Z) (p : T) (n : Z) : Z :=
  let '(hash_a, hash_b) := MurmurHash3_x64_128 p 0 in
  wrap64 (hash_a + n * hash_b) mod size.

(** The array after round [i] of [add], as [add_round] leaves it. *)
Definition write_round (size : Z) (elem : T) (bits : list Z) (i : Z) : list Z :=
  let idx := Z.to_nat (index size elem i) in
  match bits !! idx with
  | Some cell => if cell <? i then <[idx := static_cast_elem_type i]> bits else bits
  | None => bits
  end.

(** Round [i] of [add] in the words of the specification:
    [array[idx] = max(array[idx], i)]. *)
Definition max_round (size : Z) (elem : T) (bits : list Z) (i : Z) : list Z :=
  let idx := Z.to_nat (index size elem i) in
  match bits !! idx with
  | Some cell => <[idx := Z.max cell i]> bits
  | None => bits
  end.

(** [add] in the words of the specification: rounds [1 .. hash_func_num],
    each a [max_round]. *)
Definition add_spec (this : t) (elem : T) : t :=
  with_bits this
    (foldl (max_round this.(_bit_array_size) elem) this.(_bits)
       (seqZ 1 this.(_hash_func_num))).

(** An [elem_type] value. *)
Definition cell_ok (cell : Z) : Prop := 0 <= cell < elem_type_modulus.

(** The invariant of a filter: [_bits] has [_bit_array_size] cells of
    [elem_type], both scalars are [size_type] values a [double] converts
    to, and an empty array comes with no hash round. *)
Definition wf (this : t) : Prop :=
  length this.(_bits) = Z.to_nat this.(_bit_array_size) /\
  0 <= this.(_bit_array_size) /\
  0 <= this.(_hash_func_num) < size_type_modulus - 1 /\
  (this.(_bit_array_size) = 0 -> this.(_hash_func_num) = 0) /\
  Forall cell_ok this.(_bits).

(** A run of [add] calls, in order. *)
Fixpoint add_all (this : t) (elems : list T) : result t :=
  match elems with
  | [] => Ok this
  | elem :: elems' => this' ← add this elem; add_all this' elems'
  end.

(** The states a filter constructed from [(false_positive, capacity)] goes
    through under [add] and [clear]. *)
Inductive reachable (false_positive : float) (capacity : Z) : t -> Prop :=
| reachable_ctor this :
    OrdinalBloomFilter false_positive capacity = Ok this ->
    reachable false_positive capacity this
| reachable_add this elem this' :
    reachable false_positive capacity this ->
    add this elem = Ok this' ->
    reachable false_positive capacity this'
| reachable_clear this :
    reachable false_positive capacity this ->
    reachable false_positive capacity (clear this).

End Filter.

(** Cell [idx] of [bits] holds at least the round number [r]: the test
    round [r] of [contains] makes of the cell it lands on. *)
Definition holds_round (bits : list Z) (idx : nat) (r : Z) : Prop :=
  exists cell, bits !! idx = Some cell /\ r <= cell.

(** [operator=(OrdinalBloomFilter&&)], on a store of filters as for the
    basic filter. *)
Definition move_assign (left : list Z) (store : list t) (this rhs : nat)
    : result (list t) :=
  match store !! this, store !! rhs with
  | Some _, Some rhs_obj =>
      if negb (this =? rhs)%nat then
        let store := <[this := Build rhs_obj.(_bits) rhs_obj.(_bit_array_size)
                                 rhs_obj.(_hash_func_num)]> store in
        Ok (<[rhs := Build left 0 0]> store)
      else Ok store
  | _, _ => Undefined
  end.

End OrdinalBloomFilter.

(** A sample hash over integer elements: the words [(e, 1)], so that round
    [n] of element [e] lands on cell [(e + n) mod bit_array_size]. *)
Definition hash_sample (e : Z) (seed : Z) : Z * Z := (e, 1).

(** ** The sizing formulas in the words of the specification *)



(** * Facts about the conversions *)

Section Conversions.

Lemma bind_Ok {A B : Type} (r : result A) (f : A -> result B) (b : B) :
  r ≫= f = Ok b -> exists a, r = Ok a /\ f a = Ok b.
Proof.
  destruct r as [a| | |]; simpl; intros H; try discriminate H.
  exists a. split; [reflexivity | exact H].
Qed.

Lemma bind_Throw {A B : Type} (r : result A) (f : A -> result B) (e : exception) :
  r ≫= f = Throw e -> r = Throw e \/ exists a, r = Ok a /\ f a = Throw e.
Proof.
  destruct r as [a|e'| |]; simpl; intros H; try discriminate H.
  - right. exists a. split; [reflexivity | exact H].
  - left. injection H as ->. reflexivity.
Qed.

Lemma static_cast_size_type_no_Throw (x : float) (e : exception) :
  static_cast_size_type x = Throw e -> False.
Proof.
  unfold static_cast_size_type.
  destruct (Prim2SF x) as [s|s| |[|] m ex]; try discriminate.
  - destruct (_ =? 0); discriminate.
  - destruct (_ <? size_type_modulus); discriminate.
Qed.

Lemma wrap64_small (z : Z) : 0 <= z < size_type_modulus -> wrap64 z = z.
Proof. intros H. unfold wrap64. apply Z.mod_small, H. Qed.

Lemma digits2_pos_bound (m : positive) :
  Z.pos m < 2 ^ Z.pos (digits2_pos m).
Proof.
  induction m as [m IH|m IH|]; simpl digits2_pos.
  - rewrite Pos2Z.inj_succ, Z.pow_succ_r by lia. lia.
  - rewrite Pos2Z.inj_succ, Z.pow_succ_r by lia. lia.
  - reflexivity.
Qed.

(** The mantissa of a finite [double] has at most [prec = 53] bits. *)
Lemma valid_binary_mantissa (s : bool) (m : positive) (e : Z) :
  valid_binary (S754_finite s m e) = true -> Z.pos m < 2 ^ 53.
Proof.
  unfold SpecFloat.valid_binary, bounded, canonical_mantissa, fexp.
  intros H. apply andb_prop in H as [H _]. apply Z.eqb_eq in H.
  assert (Hd : Z.pos (digits2_pos m) <= 53) by (unfold prec in H; lia).
  pose proof (digits2_pos_bound m) as Hm.
  apply Z.lt_le_trans with (1 := Hm).
  apply Z.pow_le_mono_r; lia.
Qed.

(** A [size_type] read from a [double] is never [2^64 - 1]: the doubles
    just below [2^64] are multiples of [2^11]. *)
Lemma static_cast_size_type_range (x : float) (z : Z) :
  static_cast_size_type x = Ok z -> 0 <= z < size_type_modulus - 1.
Proof.
  unfold static_cast_size_type.
  pose proof (Prim2SF_valid x) as Hv.
  destruct (Prim2SF x) as [s|s| |s m e].
  - intros [= <-]. unfold size_type_modulus. lia.
  - discriminate.
  - discriminate.
  - apply valid_binary_mantissa in Hv.
    assert (Hq : forall d, 0 < d -> 0 <= Z.pos m / d < 2 ^ 53).
    { intros d Hd. split; [apply Z.div_pos; lia|].
      apply Z.le_lt_trans with (2 := Hv). apply Z.div_le_upper_bound; nia. }
    destruct s.
    + destruct (_ =? 0); [|discriminate]. intros [= <-].
      unfold size_type_modulus. lia.
    + destruct (0 <=? e) eqn:He.
      * apply Z.leb_le in He.
        destruct (_ <? size_type_modulus) eqn:Hlt; [|discriminate].
        apply Z.ltb_lt in Hlt. intros [= <-].
        split; [nia|].
        destruct (Z.eq_dec e 0) as [->|Hne].
        -- unfold size_type_modulus. lia.
        -- assert (Hev : Z.even (Z.pos m * 2 ^ e) = true).
           { replace e with (Z.succ (e - 1)) by lia.
             rewrite Z.pow_succ_r by lia.
             rewrite Z.even_mul, Z.even_mul. simpl. apply orb_true_r. }
           assert (Hodd : Z.even (size_type_modulus - 1) = false) by reflexivity.
           assert (Z.pos m * 2 ^ e <> size_type_modulus - 1) by congruence.
           lia.
      * apply Z.leb_gt in He.
        destruct (_ <? size_type_modulus); [|discriminate]. intros [= <-].
        specialize (Hq (2 ^ (- e))). 
        assert (0 < 2 ^ (- e)) by (apply Z.pow_pos_nonneg; lia).
        unfold size_type_modulus. lia.
Qed.

(** [round] of a zero is that zero, and reads back as [0]; [round] of a
    NaN is a NaN, whose conversion is undefined. *)
Lemma static_cast_size_type_round_zero (c l : float) (z : Z) :
  static_cast_size_type (round (static_cast_double 0 / c * l)%float) = Ok z ->
  z = 0.
Proof.
  set (y := (static_cast_double 0 / c * l)%float).
  assert (Hy : (exists s, Prim2SF y = S754_zero s) \/ Prim2SF y = S754_nan).
  { unfold y. rewrite mul_spec, div_spec.
    replace (Prim2SF (static_cast_double 0)) with (S754_zero false) by reflexivity.
    destruct (Prim2SF c) as [sc|sc| |sc mc ec], (Prim2SF l) as [sl|sl| |sl ml el];
      simpl; eauto. }
  unfold static_cast_size_type, round.
  destruct Hy as [[s Hy]|Hy]; rewrite Hy, Hy; congruence.
Qed.

(** The conversions on a few values. *)
Example ceil_examples :
  (ceil 0x1.4p+1 = 3 /\ ceil (-0x1.4p+1) = -2 /\ ceil 0x1p-2 = 1 /\
   Prim2SF (ceil (-0x1p-2)) = S754_zero true /\ ceil 7 = 7 /\
   ceil 0x0.0000000000001p-1022 = 1 /\ ceil infinity = infinity)%float.
Proof. repeat split; reflexivity. Qed.

Example round_examples :
  (round 0x1.4p+1 = 3 /\ round (-0x1.4p+1) = -3 /\ round 0x1.8p-1 = 1 /\
   round 0x1p-1 = 1 /\ round 0x1.fffffffffffffp-2 = 0 /\
   Prim2SF (round (-0x1p-2)) = S754_zero true /\ round 0x1.cp+1 = 4)%float.
Proof. repeat split; reflexivity. Qed.

Example static_cast_examples :
  static_cast_size_type 0x1.ep+8%float = Ok 480 /\
  static_cast_size_type 0x1.ffp+7%float = Ok 255 /\
  static_cast_size_type (-0x1p-1)%float = Ok 0 /\
  static_cast_size_type (-1)%float = Undefined /\
  static_cast_size_type 0x1p+64%float = Undefined /\
  static_cast_size_type 0x1.fffffffffffffp+63%float = Ok (2 ^ 64 - 2048) /\
  static_cast_size_type nan = Undefined /\
  static_cast_double 1000 = 1000%float /\
  static_cast_double (2 ^ 64 - 1) = 0x1p+64%float /\
  static_cast_double (2 ^ 53 + 1) = 0x1p+53%float.
Proof. repeat split; reflexivity. Qed.






End Conversions.

(** * Facts about BasicBloomFilter *)

Module BasicFacts.
Import BasicBloomFilter.

Section Facts.

Context {T : Type}.
Variable MurmurHash3_x64_128 : T -> Z -> Z * Z.
Variable log : float -> float.

Local Abbreviation hash_at_n := (hash_at_n MurmurHash3_x64_128).
Local Abbreviation index := (index MurmurHash3_x64_128).
Local Abbreviation add_loop := (add_loop MurmurHash3_x64_128).
Local Abbreviation add := (add MurmurHash3_x64_128).
Local Abbreviation add_all := (add_all MurmurHash3_x64_128).
Local Abbreviation contains_loop := (contains_loop MurmurHash3_x64_128).
Local Abbreviation contains := (contains MurmurHash3_x64_128).
Local Abbreviation BasicBloomFilter := (BasicBloomFilter log).
Local Abbreviation reachable := (reachable MurmurHash3_x64_128 log).

Lemma basic_ctor_Ok (p : float) (capacity : Z) (this : t) :
  BasicBloomFilter p capacity = Ok this ->
  wf this /\ _bits this = vector_fill (_bit_array_size this) false /\
  ((p <=? 0) || (1 <=? p))%float = false.
Proof.
  unfold BasicBloomFilter.BasicBloomFilter.
  destruct (_ || _)%float; [discriminate|].
  intros H. apply bind_Ok in H as (m & Hm & H).
  apply bind_Ok in H as (k & Hk & H). injection H as <-. simpl.
  pose proof (static_cast_size_type_range _ _ Hm) as Rm.
  pose proof (static_cast_size_type_range _ _ Hk) as Rk.
  split; [|split; reflexivity].
  unfold wf; simpl. split; [apply length_replicate|].
  split; [lia|]. split; [lia|].
  intros ->. eapply static_cast_size_type_round_zero, Hk.
Qed.

Lemma basic_index_range (size : Z) (p : T) (n : Z) :
  0 < size -> 0 <= index size p n < size.
Proof.
  intros Hs. unfold BasicBloomFilter.index.
  destruct (MurmurHash3_x64_128 p 0) as [a b]. apply Z.mod_pos_bound, Hs.
Qed.

Lemma basic_hash_at_n_Ok (this : t) (p : T) (n : Z) :
  0 < _bit_array_size this ->
  hash_at_n this p n = Ok (index (_bit_array_size this) p n).
Proof.
  intros Hs. unfold BasicBloomFilter.hash_at_n, BasicBloomFilter.index.
  destruct (MurmurHash3_x64_128 p 0) as [a b].
  destruct (Z.eqb_spec (_bit_array_size this) 0); [lia | reflexivity].
Qed.

(** What a run of the loop of [add] from round [i] on does. *)
Lemma basic_add_loop_Ok (elem : T) (fuel : nat) :
  forall (this : t) (i : Z),
    length (_bits this) = Z.to_nat (_bit_array_size this) ->
    0 < _bit_array_size this ->
    0 <= i ->
    _hash_func_num this < size_type_modulus ->
    _hash_func_num this - i <= Z.of_nat fuel ->
    exists this',
      add_loop fuel this elem i = Ok this' /\
      _bit_array_size this' = _bit_array_size this /\
      _hash_func_num this' = _hash_func_num this /\
      length (_bits this') = length (_bits this) /\
      (forall j : nat, _bits this !! j = Some true -> _bits this' !! j = Some true) /\
      (forall r, i <= r < _hash_func_num this ->
         _bits this' !! Z.to_nat (index (_bit_array_size this) elem r) = Some true).
Proof.
  induction fuel as [|fuel IH]; intros this i Hlen Hm Hi Hk Hfuel; simpl.
  - destruct (Z.ltb_spec i (_hash_func_num this)); [lia|].
    exists this. repeat split; auto. intros; lia.
  - destruct (Z.ltb_spec i (_hash_func_num this)) as [Hlt|Hge].
    + rewrite basic_hash_at_n_Ok by assumption. simpl.
      pose proof (basic_index_range (_bit_array_size this) elem i Hm) as Hidx.
      unfold vector_set.
      destruct (Z.ltb_spec (index (_bit_array_size this) elem i) 0); [lia|].
      destruct (Nat.ltb_spec (Z.to_nat (index (_bit_array_size this) elem i))
                  (length (_bits this))) as [Hin|Hout]; [|lia].
      simpl. rewrite wrap64_small by lia.
      set (this1 := with_bits this _).
      destruct (IH this1 (i + 1)) as (this' & Hrun & Hs & Hn & Hl & Hmono & Hset);
        unfold this1; simpl; try lia.
      { rewrite length_insert. exact Hlen. }
      exists this'. simpl in *. rewrite length_insert in Hl.
      assert (Hkeep : forall j : nat, _bits this !! j = Some true ->
                <[Z.to_nat (index (_bit_array_size this) elem i) := true]>
                  (_bits this) !! j = Some true).
      { intros j Hj.
        destruct (Nat.eq_dec (Z.to_nat (index (_bit_array_size this) elem i)) j) as [<-|Hne].
        - apply list_lookup_insert_eq, Hin.
        - rewrite list_lookup_insert_ne by exact Hne. exact Hj. }
      repeat split; auto.
      intros r Hr. destruct (Z.eq_dec r i) as [->|Hne].
      * apply Hmono, list_lookup_insert_eq, Hin.
      * apply Hset. lia.
    + exists this. repeat split; auto. intros; lia.
Qed.

(** What a run of the loop of [contains] from round [i] on returns. *)
Lemma basic_contains_loop_Ok (elem : T) (fuel : nat) :
  forall (this : t) (i : Z),
    length (_bits this) = Z.to_nat (_bit_array_size this) ->
    0 < _bit_array_size this ->
    0 <= i ->
    _hash_func_num this < size_type_modulus ->
    _hash_func_num this - i <= Z.of_nat fuel ->
    exists b : bool,
      contains_loop fuel this elem i = Ok b /\
      (b = true <->
       forall r, i <= r < _hash_func_num this ->
         _bits this !! Z.to_nat (index (_bit_array_size this) elem r) = Some true).
Proof.
  induction fuel as [|fuel IH]; intros this i Hlen Hm Hi Hk Hfuel; simpl.
  - destruct (Z.ltb_spec i (_hash_func_num this)); [lia|].
    exists true. split; [reflexivity|]. split; [intros; lia | reflexivity].
  - destruct (Z.ltb_spec i (_hash_func_num this)) as [Hlt|Hge].
    + rewrite basic_hash_at_n_Ok by assumption. simpl.
      pose proof (basic_index_range (_bit_array_size this) elem i Hm) as Hidx.
      unfold vector_get.
      destruct (Z.ltb_spec (index (_bit_array_size this) elem i) 0); [lia|].
      destruct (lookup_lt_is_Some_2 (_bits this)
                  (Z.to_nat (index (_bit_array_size this) elem i))) as [bit Hbit];
        [lia|].
      rewrite Hbit. simpl. destruct bit; simpl.
      * rewrite wrap64_small by lia.
        destruct (IH this (i + 1)) as (b & Hrun & Hb); try lia.
        exists b. split; [exact Hrun|]. rewrite Hb. split.
        -- intros Hall r Hr. destruct (Z.eq_dec r i) as [->|Hne]; [exact Hbit|].
           apply Hall. lia.
        -- intros Hall r Hr. apply Hall. lia.
      * exists false. split; [reflexivity|]. split; [discriminate|].
        intros Hall. specialize (Hall i). rewrite Hbit in Hall.
        assert (Some false = Some true) as [=] by (apply Hall; lia).
    + exists true. split; [reflexivity|]. split; [intros; lia | reflexivity].
Qed.

(** [add] returns, keeps the invariant and the two scalars, clears no bit
    and sets the bit of every round of [elem]. *)
Lemma basic_add_Ok (this : t) (elem : T) :
  wf this ->
  exists this',
    add this elem = Ok this' /\
    wf this' /\
    _bit_array_size this' = _bit_array_size this /\
    _hash_func_num this' = _hash_func_num this /\
    (forall j : nat, _bits this !! j = Some true -> _bits this' !! j = Some true) /\
    (forall r, 0 <= r < _hash_func_num this ->
       _bits this' !! Z.to_nat (index (_bit_array_size this) elem r) = Some true).
Proof.
  intros (Hlen & Hm & Hk & Hz). unfold BasicBloomFilter.add.
  destruct (Z.eq_dec (_bit_array_size this) 0) as [Hm0|Hm0].
  - pose proof (Hz Hm0) as Hk0. rewrite Hk0. simpl. rewrite Hk0. simpl. exists this.
    split; [reflexivity|]. split; [unfold wf; auto|].
    repeat split; auto. intros; lia.
  - destruct (basic_add_loop_Ok elem (Z.to_nat (_hash_func_num this)) this 0)
      as (this' & Hrun & Hs & Hn & Hl & Hmono & Hset); try lia.
    exists this'. split; [exact Hrun|]. split.
    { unfold wf. rewrite Hs, Hn, Hl. auto. }
    auto.
Qed.

(** [contains] returns, and returns [true] exactly when the bit of every
    round of [elem] is set. *)
Lemma basic_contains_Ok (this : t) (elem : T) :
  wf this ->
  exists b : bool,
    contains this elem = Ok b /\
    (b = true <->
     forall r, 0 <= r < _hash_func_num this ->
       _bits this !! Z.to_nat (index (_bit_array_size this) elem r) = Some true).
Proof.
  intros (Hlen & Hm & Hk & Hz). unfold BasicBloomFilter.contains.
  destruct (Z.eq_dec (_bit_array_size this) 0) as [Hm0|Hm0].
  - pose proof (Hz Hm0) as Hk0. rewrite Hk0. simpl. rewrite Hk0. simpl. exists true.
    split; [reflexivity|]. split; [intros; lia | reflexivity].
  - apply basic_contains_loop_Ok; lia.
Qed.

Lemma basic_clear_wf (this : t) : wf this -> wf (clear this).
Proof.
  intros (Hlen & Hm & Hk & Hz). unfold wf, clear, vector_fill. simpl.
  rewrite length_replicate. auto.
Qed.

(** A reachable filter satisfies the invariant and has the scalars and,
    once cleared, the state of the filter the constructor returned. *)
Lemma basic_reachable_inv (p : float) (capacity : Z) (this : t) :
  reachable p capacity this ->
  wf this /\ BasicBloomFilter p capacity = Ok (clear this).
Proof.
  induction 1 as [this Hc|this elem this' _ [Hwf IH] Hadd|this _ [Hwf IH]].
  - destruct (basic_ctor_Ok _ _ _ Hc) as (Hwf & Hbits & _). split; [exact Hwf|].
    rewrite Hc. f_equal. destruct this as [bits m k]. simpl in *.
    unfold clear, with_bits. simpl. congruence.
  - destruct (basic_add_Ok this elem Hwf) as (this2 & Hadd2 & Hwf2 & Hs & Hn & _).
    rewrite Hadd in Hadd2. injection Hadd2 as <-. split; [exact Hwf2|].
    rewrite IH. unfold clear, with_bits. simpl. rewrite Hs, Hn. reflexivity.
  - split; [apply basic_clear_wf, Hwf|]. rewrite IH. reflexivity.
Qed.

Lemma basic_add_all_Ok (elems : list T) :
  forall this : t,
    wf this ->
    exists this',
      add_all this elems = Ok this' /\
      wf this' /\
      _bit_array_size this' = _bit_array_size this /\
      _hash_func_num this' = _hash_func_num this /\
      (forall j : nat, _bits this !! j = Some true -> _bits this' !! j = Some true).
Proof.
  induction elems as [|elem elems IH]; intros this Hwf; simpl.
  - exists this. auto.
  - destruct (basic_add_Ok this elem Hwf) as (this1 & -> & Hwf1 & Hs1 & Hn1 & Hmono1 & _).
    simpl. destruct (IH this1 Hwf1) as (this' & Hrun & Hwf' & Hs & Hn & Hmono).
    exists this'. rewrite Hs, Hn. auto 10.
Qed.

(** In a cleared filter with at least one round, round [0] of [contains]
    finds a bit that is not set. *)
Lemma basic_contains_clear (this : t) (elem : T) :
  wf this ->
  1 <= _hash_func_num this ->
  contains (clear this) elem = Ok false.
Proof.
  intros Hwf Hk. pose proof (basic_clear_wf this Hwf) as Hwf'.
  destruct (basic_contains_Ok (clear this) elem Hwf') as ([|] & Hrun & Hb); [|exact Hrun].
  assert (Hbit : _bits (clear this)
                 !! Z.to_nat (index (_bit_array_size (clear this)) elem 0) = Some true).
  { apply (proj1 Hb eq_refl). simpl. lia. }
  simpl in Hbit. unfold vector_fill in Hbit.
  apply lookup_replicate in Hbit as [Hbit _]. discriminate Hbit.
Qed.

(** A constructor throws exactly when the comparison [p <= 0] or the
    comparison [p >= 1] holds. *)
Lemma basic_ctor_Throw (p : float) (capacity : Z) (e : exception) :
  BasicBloomFilter p capacity = Throw e <->
  ((p <=? 0) || (1 <=? p))%float = true /\
  e = range_error "false positive is invalie.".
Proof.
  unfold BasicBloomFilter.BasicBloomFilter.
  destruct (_ || _)%float.
  - split; [intros [= <-]; auto | intros [_ ->]; reflexivity].
  - split; [|intros [[=] _]].
    intros H. apply bind_Throw in H as [H|(m & _ & H)].
    { apply static_cast_size_type_no_Throw in H as []. }
    apply bind_Throw in H as [H|(k & _ & H)]; [|discriminate H].
    apply static_cast_size_type_no_Throw in H as [].
Qed.

End Facts.

End BasicFacts.

(** * Facts about OrdinalBloomFilter *)

Module OrdinalFacts.
Import OrdinalBloomFilter.

Section Facts.

Context {T : Type}.
Variable MurmurHash3_x64_128 : T -> Z -> Z * Z.
Variable log : float -> float.

Local Abbreviation hash_at_n := (hash_at_n MurmurHash3_x64_128).
Local Abbreviation index := (index MurmurHash3_x64_128).
Local Abbreviation write_round := (write_round MurmurHash3_x64_128).
Local Abbreviation max_round := (max_round MurmurHash3_x64_128).
Local Abbreviation add_spec := (add_spec MurmurHash3_x64_128).
Local Abbreviation add_round := (add_round MurmurHash3_x64_128).
Local Abbreviation add_loop := (add_loop MurmurHash3_x64_128).
Local Abbreviation add := (add MurmurHash3_x64_128).
Local Abbreviation add_all := (add_all MurmurHash3_x64_128).
Local Abbreviation contains_loop := (contains_loop MurmurHash3_x64_128).
Local Abbreviation contains := (contains MurmurHash3_x64_128).
Local Abbreviation OrdinalBloomFilter := (OrdinalBloomFilter log).
Local Abbreviation reachable := (reachable MurmurHash3_x64_128 log).

Lemma ordinal_ctor_Ok (p : float) (capacity : Z) (this : t) :
  OrdinalBloomFilter p capacity = Ok this ->
  wf this /\ _bits this = vector_fill (_bit_array_size this) 0 /\
  ((p <=? 0) || (1 <=? p))%float = false.
Proof.
  unfold OrdinalBloomFilter.OrdinalBloomFilter.
  destruct (_ || _)%float; [discriminate|].
  intros H. apply bind_Ok in H as (m & Hm & H).
  apply bind_Ok in H as (k & Hk & H). injection H as <-. simpl.
  pose proof (static_cast_size_type_range _ _ Hm) as Rm.
  pose proof (static_cast_size_type_range _ _ Hk) as Rk.
  split; [|split; reflexivity].
  unfold wf; simpl. split; [apply length_replicate|].
  split; [lia|]. split; [lia|]. split.
  - intros ->. eapply static_cast_size_type_round_zero, Hk.
  - apply Forall_replicate. unfold cell_ok, elem_type_modulus. lia.
Qed.

Lemma ordinal_index_range (size : Z) (p : T) (n : Z) :
  0 < size -> 0 <= index size p n < size.
Proof.
  intros Hs. unfold OrdinalBloomFilter.index.
  destruct (MurmurHash3_x64_128 p 0) as [a b]. apply Z.mod_pos_bound, Hs.
Qed.

Lemma ordinal_hash_at_n_Ok (this : t) (p : T) (n : Z) :
  0 < _bit_array_size this ->
  hash_at_n this p n = Ok (index (_bit_array_size this) p n).
Proof.
  intros Hs. unfold OrdinalBloomFilter.hash_at_n, OrdinalBloomFilter.index.
  destruct (MurmurHash3_x64_128 p 0) as [a b].
  destruct (Z.eqb_spec (_bit_array_size this) 0); [lia | reflexivity].
Qed.

Lemma ordinal_with_bits_id (this : t) : with_bits this (_bits this) = this.
Proof. destruct this; reflexivity. Qed.

Lemma write_round_length (size : Z) (elem : T) (bits : list Z) (i : Z) :
  length (write_round size elem bits i) = length bits.
Proof.
  unfold OrdinalBloomFilter.write_round.
  destruct (bits !! _) as [cell|]; [|reflexivity].
  destruct (cell <? i); [apply length_insert | reflexivity].
Qed.

Lemma write_round_cells (size : Z) (elem : T) (bits : list Z) (i : Z) :
  Forall cell_ok bits -> Forall cell_ok (write_round size elem bits i).
Proof.
  intros H. unfold OrdinalBloomFilter.write_round.
  destruct (bits !! _) as [cell|]; [|exact H].
  destruct (cell <? i); [|exact H].
  apply Forall_insert; [exact H|].
  unfold cell_ok, static_cast_elem_type, elem_type_modulus.
  apply Z.mod_pos_bound. lia.
Qed.

Lemma foldl_write_round_length (size : Z) (elem : T) (rounds : list Z) :
  forall bits, length (foldl (write_round size elem) bits rounds) = length bits.
Proof.
  induction rounds as [|i rounds IH]; intros bits; simpl; [reflexivity|].
  rewrite IH. apply write_round_length.
Qed.

Lemma foldl_write_round_cells (size : Z) (elem : T) (rounds : list Z) :
  forall bits, Forall cell_ok bits ->
    Forall cell_ok (foldl (write_round size elem) bits rounds).
Proof.
  induction rounds as [|i rounds IH]; intros bits H; simpl; [exact H|].
  apply IH, write_round_cells, H.
Qed.

(** One round of [add] returns and leaves [write_round] in [_bits]. *)
Lemma ordinal_add_round_Ok (this : t) (elem : T) (i : Z) :
  length (_bits this) = Z.to_nat (_bit_array_size this) ->
  0 < _bit_array_size this ->
  add_round this elem i =
  Ok (with_bits this (write_round (_bit_array_size this) elem (_bits this) i)).
Proof.
  intros Hlen Hm. unfold OrdinalBloomFilter.add_round, OrdinalBloomFilter.write_round.
  rewrite ordinal_hash_at_n_Ok by assumption. simpl.
  pose proof (ordinal_index_range (_bit_array_size this) elem i Hm) as Hidx.
  unfold vector_get, vector_set.
  destruct (Z.ltb_spec (index (_bit_array_size this) elem i) 0); [lia|].
  destruct (lookup_lt_is_Some_2 (_bits this)
              (Z.to_nat (index (_bit_array_size this) elem i))) as [cell Hcell];
    [lia|].
  rewrite Hcell. simpl. destruct (cell <? i); simpl.
  - destruct (Nat.ltb_spec (Z.to_nat (index (_bit_array_size this) elem i))
                (length (_bits this))); [reflexivity | lia].
  - rewrite ordinal_with_bits_id. reflexivity.
Qed.

(** The loop of [add] from round [i] on returns, having run the rounds
    [i .. hash_func_num] in order. *)
Lemma ordinal_add_loop_Ok (elem : T) (fuel : nat) :
  forall (this : t) (i : Z),
    length (_bits this) = Z.to_nat (_bit_array_size this) ->
    0 < _bit_array_size this ->
    0 <= i ->
    _hash_func_num this < size_type_modulus - 1 ->
    _hash_func_num this + 1 - i <= Z.of_nat fuel ->
    add_loop fuel this elem i =
    Ok (with_bits this
          (foldl (write_round (_bit_array_size this) elem) (_bits this)
             (seqZ i (_hash_func_num this + 1 - i)))).
Proof.
  induction fuel as [|fuel IH]; intros this i Hlen Hm Hi Hk Hfuel; simpl.
  - destruct (Z.leb_spec i (_hash_func_num this)); [lia|].
    rewrite seqZ_nil by lia. simpl. rewrite ordinal_with_bits_id. reflexivity.
  - destruct (Z.leb_spec i (_hash_func_num this)) as [Hle|Hgt].
    + rewrite ordinal_add_round_Ok by assumption. simpl.
      rewrite wrap64_small by lia.
      rewrite IH; simpl; try lia.
      2:{ rewrite write_round_length. exact Hlen. }
      rewrite (seqZ_cons i) by lia. simpl.
      replace (Z.succ i) with (i + 1) by lia.
      replace (Z.pred (_hash_func_num this + 1 - i))
        with (_hash_func_num this + 1 - (i + 1)) by lia.
      reflexivity.
    + rewrite seqZ_nil by lia. simpl. rewrite ordinal_with_bits_id. reflexivity.
Qed.

(** [add] returns: it runs the rounds [1 .. hash_func_num] in order and
    keeps the invariant and the two scalars. *)
Lemma ordinal_add_Ok (this : t) (elem : T) :
  wf this ->
  exists this',
    add this elem = Ok this' /\
    wf this' /\
    _bit_array_size this' = _bit_array_size this /\
    _hash_func_num this' = _hash_func_num this /\
    _bits this' =
      foldl (write_round (_bit_array_size this) elem) (_bits this)
        (seqZ 1 (_hash_func_num this)).
Proof.
  intros (Hlen & Hm & Hk & Hz & Hcells). unfold OrdinalBloomFilter.add.
  destruct (Z.eq_dec (_bit_array_size this) 0) as [Hm0|Hm0].
  - pose proof (Hz Hm0) as Hk0. rewrite Hk0. simpl. rewrite Hk0. simpl.
    exists this. split; [reflexivity|]. split; [unfold wf; auto|].
    auto.
  - rewrite ordinal_add_loop_Ok by lia.
    replace (_hash_func_num this + 1 - 1) with (_hash_func_num this) by lia.
    eexists. split; [reflexivity|]. simpl. split; [|auto].
    unfold wf. simpl. rewrite foldl_write_round_length.
    repeat split; auto; try lia. apply foldl_write_round_cells, Hcells.
Qed.

(** Up to round [255] a round of [add] is the maximum the specification
    writes. *)
Lemma write_round_max (size : Z) (elem : T) (bits : list Z) (i : Z) :
  0 <= i < elem_type_modulus ->
  write_round size elem bits i = max_round size elem bits i.
Proof.
  intros Hi. unfold OrdinalBloomFilter.write_round, OrdinalBloomFilter.max_round.
  destruct (bits !! _) as [cell|] eqn:Hcell; [|reflexivity].
  destruct (Z.ltb_spec cell i).
  - rewrite Z.max_r by lia. unfold static_cast_elem_type.
    rewrite Z.mod_small by exact Hi. reflexivity.
  - rewrite Z.max_l by lia. symmetry. apply list_insert_id, Hcell.
Qed.

Lemma foldl_write_round_max (size : Z) (elem : T) (rounds : list Z) :
  Forall (fun i => 0 <= i < elem_type_modulus) rounds ->
  forall bits,
    foldl (write_round size elem) bits rounds =
    foldl (max_round size elem) bits rounds.
Proof.
  induction 1 as [|i rounds Hi _ IH]; intros bits; simpl; [reflexivity|].
  rewrite write_round_max by exact Hi. apply IH.
Qed.

Lemma max_round_length (size : Z) (elem : T) (bits : list Z) (i : Z) :
  length (max_round size elem bits i) = length bits.
Proof.
  unfold OrdinalBloomFilter.max_round.
  destruct (bits !! _); [apply length_insert | reflexivity].
Qed.

(** No cell decreases in a round. *)
Lemma max_round_mono (size : Z) (elem : T) (bits : list Z) (i : Z) (j : nat) (c : Z) :
  bits !! j = Some c ->
  exists c', max_round size elem bits i !! j = Some c' /\ c <= c'.
Proof.
  intros Hj. unfold OrdinalBloomFilter.max_round.
  destruct (bits !! Z.to_nat (index size elem i)) as [cell|] eqn:Hcell.
  - destruct (Nat.eq_dec (Z.to_nat (index size elem i)) j) as [Heq|Hne].
    + subst j. rewrite Hj in Hcell. injection Hcell as ->.
      exists (Z.max cell i). split; [|lia].
      apply list_lookup_insert_eq. eapply lookup_lt_Some, Hj.
    + exists c. rewrite list_lookup_insert_ne by exact Hne. split; [exact Hj | lia].
  - exists c. split; [exact Hj | lia].
Qed.

Lemma foldl_max_round_length (size : Z) (elem : T) (rounds : list Z) :
  forall bits, length (foldl (max_round size elem) bits rounds) = length bits.
Proof.
  induction rounds as [|i rounds IH]; intros bits; simpl; [reflexivity|].
  rewrite IH. apply max_round_length.
Qed.

(** No cell decreases in a run of rounds. *)
Lemma foldl_max_round_mono (size : Z) (elem : T) (rounds : list Z) :
  forall (bits : list Z) (j : nat) (c : Z),
    bits !! j = Some c ->
    exists c', foldl (max_round size elem) bits rounds !! j = Some c' /\ c <= c'.
Proof.
  induction rounds as [|i rounds IH]; intros bits j c Hj; simpl.
  - exists c. split; [exact Hj | lia].
  - destruct (max_round_mono size elem bits i j c Hj) as (c1 & Hc1 & Hle1).
    destruct (IH _ j c1 Hc1) as (c' & Hc' & Hle). exists c'. split; [exact Hc' | lia].
Qed.

(** After a run of rounds the cell of each of them holds at least its
    round number. *)
Lemma foldl_max_round_set (size : Z) (elem : T) (rounds : list Z) :
  0 < size ->
  forall (bits : list Z) (r : Z),
    length bits = Z.to_nat size ->
    r ∈ rounds ->
    exists c,
      foldl (max_round size elem) bits rounds !! Z.to_nat (index size elem r) = Some c /\
      r <= c.
Proof.
  intros Hs. induction rounds as [|i rounds IH]; intros bits r Hlen Hr; simpl.
  - inversion Hr.
  - apply elem_of_cons in Hr as [->|Hr].
    + pose proof (ordinal_index_range size elem i Hs) as Hidx.
      destruct (lookup_lt_is_Some_2 bits (Z.to_nat (index size elem i))) as [cell Hcell];
        [lia|].
      assert (H1 : max_round size elem bits i !! Z.to_nat (index size elem i)
                   = Some (Z.max cell i)).
      { unfold OrdinalBloomFilter.max_round. rewrite Hcell.
        apply list_lookup_insert_eq. lia. }
      destruct (foldl_max_round_mono size elem rounds _ _ _ H1) as (c & Hc & Hle).
      exists c. split; [exact Hc | lia].
    + apply IH; [|exact Hr]. rewrite max_round_length. exact Hlen.
Qed.

(** What a run of the loop of [contains] from round [i] on returns. *)
Lemma ordinal_contains_loop_Ok (elem : T) (fuel : nat) :
  forall (this : t) (i : Z),
    length (_bits this) = Z.to_nat (_bit_array_size this) ->
    0 < _bit_array_size this ->
    0 <= i ->
    _hash_func_num this < size_type_modulus - 1 ->
    _hash_func_num this + 1 - i <= Z.of_nat fuel ->
    exists b : bool,
      contains_loop fuel this elem i = Ok b /\
      (b = true <->
       forall r, i <= r <= _hash_func_num this ->
         exists c,
           _bits this !! Z.to_nat (index (_bit_array_size this) elem r) = Some c /\
           r <= c).
Proof.
  induction fuel as [|fuel IH]; intros this i Hlen Hm Hi Hk Hfuel; simpl.
  - destruct (Z.leb_spec i (_hash_func_num this)); [lia|].
    exists true. split; [reflexivity|]. split; [intros; lia | reflexivity].
  - destruct (Z.leb_spec i (_hash_func_num this)) as [Hle|Hgt].
    + rewrite ordinal_hash_at_n_Ok by assumption. simpl.
      pose proof (ordinal_index_range (_bit_array_size this) elem i Hm) as Hidx.
      unfold vector_get.
      destruct (Z.ltb_spec (index (_bit_array_size this) elem i) 0); [lia|].
      destruct (lookup_lt_is_Some_2 (_bits this)
                  (Z.to_nat (index (_bit_array_size this) elem i))) as [cell Hcell];
        [lia|].
      rewrite Hcell. simpl. destruct (Z.ltb_spec cell i) as [Hlt|Hge].
      * exists false. split; [reflexivity|]. split; [discriminate|].
        intros Hall. destruct (Hall i) as (c & Hc & Hic); [lia|].
        rewrite Hcell in Hc. injection Hc as ->. lia.
      * rewrite wrap64_small by lia.
        destruct (IH this (i + 1)) as (b & Hrun & Hb); try lia.
        exists b. split; [exact Hrun|]. rewrite Hb. split.
        -- intros Hall r Hr. destruct (Z.eq_dec r i) as [->|Hne]; [eauto|].
           apply Hall. lia.
        -- intros Hall r Hr. apply Hall. lia.
    + exists true. split; [reflexivity|]. split; [intros; lia | reflexivity].
Qed.

(** [contains] returns, and returns [true] exactly when the cell of every
    round of [elem] holds at least the round number. *)
Lemma ordinal_contains_Ok (this : t) (elem : T) :
  wf this ->
  exists b : bool,
    contains this elem = Ok b /\
    (b = true <->
     forall r, 1 <= r <= _hash_func_num this ->
       exists c,
         _bits this !! Z.to_nat (index (_bit_array_size this) elem r) = Some c /\
         r <= c).
Proof.
  intros (Hlen & Hm & Hk & Hz & Hcells). unfold OrdinalBloomFilter.contains.
  destruct (Z.eq_dec (_bit_array_size this) 0) as [Hm0|Hm0].
  - pose proof (Hz Hm0) as Hk0. rewrite Hk0. simpl. rewrite Hk0. simpl.
    exists true. split; [reflexivity|]. split; [intros; lia | reflexivity].
  - apply ordinal_contains_loop_Ok; lia.
Qed.

(** With a round [256] the test [_bits[hash_val] < i] holds of every
    [elem_type] cell: [contains] returns [false]. *)
Lemma ordinal_contains_false (this : t) (elem : T) :
  wf this ->
  elem_type_modulus <= _hash_func_num this ->
  contains this elem = Ok false.
Proof.
  intros Hwf Hbig. destruct (ordinal_contains_Ok this elem Hwf) as ([|] & Hrun & Hb);
    [|exact Hrun].
  destruct Hwf as (Hlen & Hm & Hk & Hz & Hcells).
  destruct (proj1 Hb eq_refl elem_type_modulus) as (c & Hc & Hle).
  { unfold elem_type_modulus in *. lia. }
  apply (Forall_lookup_1 _ _ _ _ Hcells) in Hc. unfold cell_ok in Hc. lia.
Qed.

Lemma ordinal_clear_wf (this : t) : wf this -> wf (clear this).
Proof.
  intros (Hlen & Hm & Hk & Hz & Hcells). unfold wf, clear, vector_fill. simpl.
  rewrite length_replicate. repeat split; auto; try lia.
  apply Forall_replicate. unfold cell_ok, elem_type_modulus. lia.
Qed.

(** A reachable filter satisfies the invariant and has the scalars and,
    once cleared, the state of the filter the constructor returned. *)
Lemma ordinal_reachable_inv (p : float) (capacity : Z) (this : t) :
  reachable p capacity this ->
  wf this /\ OrdinalBloomFilter p capacity = Ok (clear this).
Proof.
  induction 1 as [this Hc|this elem this' _ [Hwf IH] Hadd|this _ [Hwf IH]].
  - destruct (ordinal_ctor_Ok _ _ _ Hc) as (Hwf & Hbits & _). split; [exact Hwf|].
    rewrite Hc. f_equal. destruct this as [bits m k]. simpl in *.
    unfold clear, with_bits. simpl. congruence.
  - destruct (ordinal_add_Ok this elem Hwf) as (this2 & Hadd2 & Hwf2 & Hs & Hn & _).
    rewrite Hadd in Hadd2. injection Hadd2 as <-. split; [exact Hwf2|].
    rewrite IH. unfold clear, with_bits. simpl. rewrite Hs, Hn. reflexivity.
  - split; [apply ordinal_clear_wf, Hwf|]. rewrite IH. reflexivity.
Qed.

(** With at most [255] rounds [add] is [add_spec]. *)
Lemma ordinal_add_small (this : t) (elem : T) :
  wf this ->
  _hash_func_num this < elem_type_modulus ->
  add this elem = Ok (add_spec this elem) /\ wf (add_spec this elem).
Proof.
  intros Hwf Hsmall.
  destruct (ordinal_add_Ok this elem Hwf) as (this' & Hadd & Hwf' & Hs & Hn & Hbits).
  assert (Heq : this' = add_spec this elem).
  { destruct this' as [bits' m' k']. simpl in *. subst.
    unfold OrdinalBloomFilter.add_spec, with_bits. f_equal.
    apply foldl_write_round_max, Forall_seqZ.
    destruct Hwf as (_ & _ & Hk & _). intros i Hi. lia. }
  rewrite <- Heq. auto.
Qed.

(** With at most [255] rounds no cell decreases in [add], and the cell of
    each round of [elem] ends at least at the round number. *)
Lemma ordinal_add_spec_cells (this : t) (elem : T) :
  wf this ->
  (forall (j : nat) (c : Z), _bits this !! j = Some c ->
     exists c', _bits (add_spec this elem) !! j = Some c' /\ c <= c') /\
  (forall r, 1 <= r <= _hash_func_num this ->
     exists c,
       _bits (add_spec this elem) !! Z.to_nat (index (_bit_array_size this) elem r)
         = Some c /\ r <= c).
Proof.
  intros (Hlen & Hm & Hk & Hz & Hcells). split.
  - intros j c Hj. apply foldl_max_round_mono, Hj.
  - intros r Hr. simpl. apply foldl_max_round_set.
    + destruct (Z.eq_dec (_bit_array_size this) 0) as [H0|H0]; [|lia].
      specialize (Hz H0). lia.
    + exact Hlen.
    + apply elem_of_seqZ. lia.
Qed.

Lemma ordinal_add_all_small (elems : list T) :
  forall this : t,
    wf this ->
    _hash_func_num this < elem_type_modulus ->
    exists this',
      add_all this elems = Ok this' /\
      wf this' /\
      _bit_array_size this' = _bit_array_size this /\
      _hash_func_num this' = _hash_func_num this /\
      (forall (j : nat) (c : Z), _bits this !! j = Some c ->
         exists c', _bits this' !! j = Some c' /\ c <= c').
Proof.
  induction elems as [|elem elems IH]; intros this Hwf Hsmall; simpl.
  - exists this. split; [reflexivity|]. split; [exact Hwf|].
    split; [reflexivity|]. split; [reflexivity|].
    intros j c Hj. exists c. split; [exact Hj | lia].
  - destruct (ordinal_add_small this elem Hwf Hsmall) as [-> Hwf1]. simpl.
    destruct (IH (add_spec this elem) Hwf1) as (this' & Hrun & Hwf' & Hs & Hn & Hmono);
      [exact Hsmall|].
    exists this'. split; [exact Hrun|]. split; [exact Hwf'|].
    split; [exact Hs|]. split; [exact Hn|].
    intros j c Hj.
    destruct (proj1 (ordinal_add_spec_cells this elem Hwf) j c Hj) as (c1 & Hc1 & Hle1).
    destruct (Hmono j c1 Hc1) as (c' & Hc' & Hle). exists c'. split; [exact Hc' | lia].
Qed.

(** In a cleared filter with at least one round, round [1] of [contains]
    finds a cell holding [0]. *)
Lemma ordinal_contains_clear (this : t) (elem : T) :
  wf this ->
  1 <= _hash_func_num this ->
  contains (clear this) elem = Ok false.
Proof.
  intros Hwf Hk. pose proof (ordinal_clear_wf this Hwf) as Hwf'.
  destruct (ordinal_contains_Ok (clear this) elem Hwf') as ([|] & Hrun & Hb); [|exact Hrun].
  destruct (proj1 Hb eq_refl 1) as (c & Hcell & Hle); [simpl; lia|].
  simpl in Hcell. unfold vector_fill in Hcell.
  apply lookup_replicate in Hcell as [-> _]. lia.
Qed.

(** A constructor throws exactly when the comparison [p <= 0] or the
    comparison [p >= 1] holds. *)
Lemma ordinal_ctor_Throw (p : float) (capacity : Z) (e : exception) :
  OrdinalBloomFilter p capacity = Throw e <->
  ((p <=? 0) || (1 <=? p))%float = true /\
  e = range_error "false positive is invalie.".
Proof.
  unfold OrdinalBloomFilter.OrdinalBloomFilter.
  destruct (_ || _)%float.
  - split; [intros [= <-]; auto | intros [_ ->]; reflexivity].
  - split; [|intros [[=] _]].
    intros H. apply bind_Throw in H as [H|(m & _ & H)].
    { apply static_cast_size_type_no_Throw in H as []. }
    apply bind_Throw in H as [H|(k & _ & H)]; [|discriminate H].
    apply static_cast_size_type_no_Throw in H as [].
Qed.

End Facts.

End OrdinalFacts.

(** * The properties of the specification *)

(** C1. BasicBloomFilter has no false negatives: whatever calls a
    constructed filter has gone through, once [add elem] has returned
    and whatever elements are added after it, [contains elem] returns
    [true]. *)
Theorem basic_no_false_negatives {T : Type}
    (MurmurHash3_x64_128 : T -> Z -> Z * Z) (log : float -> float)
    (false_positive : float) (capacity : Z)
    (this : BasicBloomFilter.t) (elem : T) (others : list T) :
  BasicBloomFilter.reachable MurmurHash3_x64_128 log false_positive capacity this ->
  exists this',
    (this1 ← BasicBloomFilter.add MurmurHash3_x64_128 this elem;
     BasicBloomFilter.add_all MurmurHash3_x64_128 this1 others) = Ok this' /\
    BasicBloomFilter.contains MurmurHash3_x64_128 this' elem = Ok true.
Proof.
  intros Hreach.
  destruct (BasicFacts.basic_reachable_inv _ _ _ _ _ Hreach) as [Hwf _].
  destruct (BasicFacts.basic_add_Ok MurmurHash3_x64_128 this elem Hwf)
    as (this1 & Hadd & Hwf1 & Hs1 & Hn1 & _ & Hset).
  destruct (BasicFacts.basic_add_all_Ok MurmurHash3_x64_128 others this1 Hwf1)
    as (this' & Hrun & Hwf' & Hs & Hn & Hmono).
  exists this'. rewrite Hadd. simpl. split; [exact Hrun|].
  destruct (BasicFacts.basic_contains_Ok MurmurHash3_x64_128 this' elem Hwf')
    as (b & Hc & Hb).
  rewrite Hc. f_equal. apply Hb. intros r Hr.
  rewrite Hs, Hs1. apply Hmono, Hset. lia.
Qed.

Lemma basic_no_false_negatives_witness :
  exists this',
    (this1 ← BasicBloomFilter.add hash_sample
               (BasicBloomFilter.Build (vector_fill 96 false) 96 7) 42;
     BasicBloomFilter.add_all hash_sample this1 [7; 138]) = Ok this' /\
    BasicBloomFilter.contains hash_sample this' 42 = Ok true.
Proof.
  apply (basic_no_false_negatives hash_sample log_sample
           0x1.47ae147ae147bp-7%float 10).
  apply BasicBloomFilter.reachable_ctor. vm_compute. reflexivity.
Defined.

(** C2, as the code has it. OrdinalBloomFilter has no false negatives when
    [hash_func_num] is at most [255], the largest round number an
    [elem_type] cell holds. *)
Theorem ordinal_no_false_negatives {T : Type}
    (MurmurHash3_x64_128 : T -> Z -> Z * Z) (log : float -> float)
    (false_positive : float) (capacity : Z)
    (this : OrdinalBloomFilter.t) (elem : T) (others : list T) :
  OrdinalBloomFilter.reachable MurmurHash3_x64_128 log false_positive capacity this ->
  OrdinalBloomFilter._hash_func_num this <= 255 ->
  exists this',
    (this1 ← OrdinalBloomFilter.add MurmurHash3_x64_128 this elem;
     OrdinalBloomFilter.add_all MurmurHash3_x64_128 this1 others) = Ok this' /\
    OrdinalBloomFilter.contains MurmurHash3_x64_128 this' elem = Ok true.
Proof.
  intros Hreach Hsmall.
  destruct (OrdinalFacts.ordinal_reachable_inv _ _ _ _ _ Hreach) as [Hwf _].
  assert (Hk : OrdinalBloomFilter._hash_func_num this < elem_type_modulus)
    by (unfold elem_type_modulus; lia).
  destruct (OrdinalFacts.ordinal_add_small MurmurHash3_x64_128 this elem Hwf Hk)
    as [Hadd Hwf1].
  destruct (OrdinalFacts.ordinal_add_spec_cells MurmurHash3_x64_128 this elem Hwf)
    as [_ Hset].
  destruct (OrdinalFacts.ordinal_add_all_small MurmurHash3_x64_128 others _ Hwf1 Hk)
    as (this' & Hrun & Hwf' & Hs & Hn & Hmono).
  exists this'. rewrite Hadd. simpl. split; [exact Hrun|].
  destruct (OrdinalFacts.ordinal_contains_Ok MurmurHash3_x64_128 this' elem Hwf')
    as (b & Hc & Hb).
  rewrite Hc. f_equal. apply Hb. intros r Hr.
  rewrite Hs, Hn in *. simpl in *.
  destruct (Hset r Hr) as (c & Hc1 & Hle).
  destruct (Hmono _ _ Hc1) as (c' & Hc' & Hle'). exists c'. split; [exact Hc' | lia].
Qed.

Lemma ordinal_no_false_negatives_witness :
  exists this',
    (this1 ← OrdinalBloomFilter.add hash_sample
               (OrdinalBloomFilter.Build (vector_fill 96 0) 96 7) 42;
     OrdinalBloomFilter.add_all hash_sample this1 [7; 138]) = Ok this' /\
    OrdinalBloomFilter.contains hash_sample this' 42 = Ok true.
Proof.
  apply (ordinal_no_false_negatives hash_sample log_sample
           0x1.47ae147ae147bp-7%float 10).
  - apply OrdinalBloomFilter.reachable_ctor. vm_compute. reflexivity.
  - simpl. lia.
Defined.

(** C2 fails as stated. [OrdinalBloomFilter(1e-100, 1)] has [480] cells
    and [333] rounds; round [256] of [add] stores
    [static_cast<elem_type>(256) = 0], and round [256] of [contains]
    finds a cell below [256]: the element just added is reported
    absent. *)
Lemma ordinal_false_negative :
  ((0 <? 0x1.bff2ee48e053p-333) && (0x1.bff2ee48e053p-333 <? 1))%float = true /\
  (this ← OrdinalBloomFilter.OrdinalBloomFilter log_sample 0x1.bff2ee48e053p-333%float 1;
   Ok (OrdinalBloomFilter._bit_array_size this, OrdinalBloomFilter._hash_func_num this))
  = Ok (480, 333) /\
  (this ← OrdinalBloomFilter.OrdinalBloomFilter log_sample 0x1.bff2ee48e053p-333%float 1;
   this' ← OrdinalBloomFilter.add hash_sample this 0;
   OrdinalBloomFilter.contains hash_sample this' 0) = Ok false.
Proof. vm_compute. repeat split; reflexivity. Qed.

(** C3, as the code has it. When [hash_func_num] is at most [255], [add]
    is the run of rounds [1 .. hash_func_num] that each write
    [max(array[idx], i)], and no cell of a constructed filter decreases
    over any sequence of [add] calls. *)
Theorem ordinal_cells_monotonic {T : Type}
    (MurmurHash3_x64_128 : T -> Z -> Z * Z) (log : float -> float)
    (false_positive : float) (capacity : Z)
    (this : OrdinalBloomFilter.t) (elem : T) (elems : list T) :
  OrdinalBloomFilter.reachable MurmurHash3_x64_128 log false_positive capacity this ->
  OrdinalBloomFilter._hash_func_num this <= 255 ->
  OrdinalBloomFilter.add MurmurHash3_x64_128 this elem
  = Ok (OrdinalBloomFilter.add_spec MurmurHash3_x64_128 this elem) /\
  exists this',
    OrdinalBloomFilter.add_all MurmurHash3_x64_128 this elems = Ok this' /\
    forall (idx : nat) (cell : Z),
      OrdinalBloomFilter._bits this !! idx = Some cell ->
      exists cell',
        OrdinalBloomFilter._bits this' !! idx = Some cell' /\ cell <= cell'.
Proof.
  intros Hreach Hsmall.
  destruct (OrdinalFacts.ordinal_reachable_inv _ _ _ _ _ Hreach) as [Hwf _].
  assert (Hk : OrdinalBloomFilter._hash_func_num this < elem_type_modulus)
    by (unfold elem_type_modulus; lia).
  split.
  - apply OrdinalFacts.ordinal_add_small; assumption.
  - destruct (OrdinalFacts.ordinal_add_all_small MurmurHash3_x64_128 elems this Hwf Hk)
      as (this' & Hrun & _ & _ & _ & Hmono).
    exists this'. split; [exact Hrun | exact Hmono].
Qed.

Lemma ordinal_cells_monotonic_witness :
  OrdinalBloomFilter.add hash_sample
    (OrdinalBloomFilter.Build (vector_fill 96 0) 96 7) 42
  = Ok (OrdinalBloomFilter.add_spec hash_sample
          (OrdinalBloomFilter.Build (vector_fill 96 0) 96 7) 42) /\
  exists this',
    OrdinalBloomFilter.add_all hash_sample
      (OrdinalBloomFilter.Build (vector_fill 96 0) 96 7) [42; 41; 138] = Ok this' /\
    forall (idx : nat) (cell : Z),
      vector_fill 96 0 !! idx = Some cell ->
      exists cell',
        OrdinalBloomFilter._bits this' !! idx = Some cell' /\ cell <= cell'.
Proof.
  apply (ordinal_cells_monotonic hash_sample log_sample
           0x1.47ae147ae147bp-7%float 10).
  - apply OrdinalBloomFilter.reachable_ctor. vm_compute. reflexivity.
  - simpl. lia.
Defined.

(** C3 fails as stated. In [OrdinalBloomFilter(1e-100, 1)] ([480] cells,
    [333] rounds) [add(0)] leaves [255] in cell [255]; round [256] of
    [add(479)] lands on that cell and stores
    [static_cast<elem_type>(256) = 0]. *)
Lemma ordinal_cell_decreases :
  ((0 <? 0x1.bff2ee48e053p-333) && (0x1.bff2ee48e053p-333 <? 1))%float = true /\
  exists this1 this2 : OrdinalBloomFilter.t,
    (this ← OrdinalBloomFilter.OrdinalBloomFilter log_sample
              0x1.bff2ee48e053p-333%float 1;
     OrdinalBloomFilter.add hash_sample this 0) = Ok this1 /\
    OrdinalBloomFilter.add hash_sample this1 479 = Ok this2 /\
    OrdinalBloomFilter._bits this1 !! 255%nat = Some 255 /\
    OrdinalBloomFilter._bits this2 !! 255%nat = Some 0.
Proof.
  split; [reflexivity|].
  eexists. eexists. split; [vm_compute; reflexivity|].
  split; [vm_compute; reflexivity|]. split; vm_compute; reflexivity.
Qed.

(** C4. Monotonic fullness, for both filters: if [contains elem] returns
    [true] on a constructed filter, then any further [add] calls return
    and [contains elem] returns [true] on the filter they leave. *)
Theorem monotonic_fullness {T : Type}
    (MurmurHash3_x64_128 : T -> Z -> Z * Z) (log : float -> float)
    (false_positive : float) (capacity : Z) (elem : T) (others : list T) :
  (forall this : BasicBloomFilter.t,
     BasicBloomFilter.reachable MurmurHash3_x64_128 log false_positive capacity this ->
     BasicBloomFilter.contains MurmurHash3_x64_128 this elem = Ok true ->
     exists this',
       BasicBloomFilter.add_all MurmurHash3_x64_128 this others = Ok this' /\
       BasicBloomFilter.contains MurmurHash3_x64_128 this' elem = Ok true) /\
  (forall this : OrdinalBloomFilter.t,
     OrdinalBloomFilter.reachable MurmurHash3_x64_128 log false_positive capacity this ->
     OrdinalBloomFilter.contains MurmurHash3_x64_128 this elem = Ok true ->
     exists this',
       OrdinalBloomFilter.add_all MurmurHash3_x64_128 this others = Ok this' /\
       OrdinalBloomFilter.contains MurmurHash3_x64_128 this' elem = Ok true).
Proof.
  split.
  - intros this Hreach Htrue.
    destruct (BasicFacts.basic_reachable_inv _ _ _ _ _ Hreach) as [Hwf _].
    destruct (BasicFacts.basic_add_all_Ok MurmurHash3_x64_128 others this Hwf)
      as (this' & Hadd & Hwf' & Hs & Hn & Hmono).
    exists this'. split; [exact Hadd|].
    destruct (BasicFacts.basic_contains_Ok MurmurHash3_x64_128 this elem Hwf)
      as (b & Hc & Hb).
    rewrite Hc in Htrue. injection Htrue as ->.
    destruct (BasicFacts.basic_contains_Ok MurmurHash3_x64_128 this' elem Hwf')
      as (b' & Hc' & Hb').
    rewrite Hc'. f_equal. apply Hb'. intros r Hr. rewrite Hs.
    apply Hmono, (proj1 Hb eq_refl). lia.
  - intros this Hreach Htrue.
    destruct (OrdinalFacts.ordinal_reachable_inv _ _ _ _ _ Hreach) as [Hwf _].
    destruct (Z_lt_le_dec (OrdinalBloomFilter._hash_func_num this) elem_type_modulus)
      as [Hk|Hbig].
    + destruct (OrdinalFacts.ordinal_add_all_small MurmurHash3_x64_128 others this Hwf Hk)
        as (this' & Hadd & Hwf' & Hs & Hn & Hmono).
      exists this'. split; [exact Hadd|].
      destruct (OrdinalFacts.ordinal_contains_Ok MurmurHash3_x64_128 this elem Hwf)
        as (b & Hc & Hb).
      rewrite Hc in Htrue. injection Htrue as ->.
      destruct (OrdinalFacts.ordinal_contains_Ok MurmurHash3_x64_128 this' elem Hwf')
        as (b' & Hc' & Hb').
      rewrite Hc'. f_equal. apply Hb'. rewrite Hs, Hn. intros r Hr.
      destruct (proj1 Hb eq_refl r Hr) as (c & Hcell & Hle).
      destruct (Hmono _ _ Hcell) as (c' & Hcell' & Hle').
      exists c'. split; [exact Hcell' | lia].
    + rewrite (OrdinalFacts.ordinal_contains_false MurmurHash3_x64_128 this elem Hwf Hbig)
        in Htrue.
      discriminate Htrue.
Qed.

Lemma monotonic_fullness_witness :
  (exists this,
     BasicBloomFilter.add hash_sample
       (BasicBloomFilter.Build (vector_fill 96 false) 96 7) 42 = Ok this /\
     exists this',
       BasicBloomFilter.add_all hash_sample this [7; 41; 138] = Ok this' /\
       BasicBloomFilter.contains hash_sample this' 42 = Ok true) /\
  (exists this,
     OrdinalBloomFilter.add hash_sample
       (OrdinalBloomFilter.Build (vector_fill 96 0) 96 7) 42 = Ok this /\
     exists this',
       OrdinalBloomFilter.add_all hash_sample this [7; 41; 138] = Ok this' /\
       OrdinalBloomFilter.contains hash_sample this' 42 = Ok true).
Proof.
  split.
  - eexists. split; [vm_compute; reflexivity|].
    apply (proj1 (monotonic_fullness hash_sample log_sample
                    0x1.47ae147ae147bp-7%float 10 42 [7; 41; 138])).
    + eapply BasicBloomFilter.reachable_add with (elem := 42).
      * apply BasicBloomFilter.reachable_ctor. vm_compute. reflexivity.
      * vm_compute. reflexivity.
    + vm_compute. reflexivity.
  - eexists. split; [vm_compute; reflexivity|].
    apply (proj2 (monotonic_fullness hash_sample log_sample
                    0x1.47ae147ae147bp-7%float 10 42 [7; 41; 138])).
    + eapply OrdinalBloomFilter.reachable_add with (elem := 42).
      * apply OrdinalBloomFilter.reachable_ctor. vm_compute. reflexivity.
      * vm_compute. reflexivity.
    + vm_compute. reflexivity.
Defined.

(** C5, as the code has it. [clear] leaves a constructed filter in the
    state the constructor returned for its parameters, and [contains]
    then returns [false] for every element provided [hash_func_num] is
    at least [1]. *)
Theorem clear_resets {T : Type}
    (MurmurHash3_x64_128 : T -> Z -> Z * Z) (log : float -> float)
    (false_positive : float) (capacity : Z) :
  (forall this : BasicBloomFilter.t,
     BasicBloomFilter.reachable MurmurHash3_x64_128 log false_positive capacity this ->
     BasicBloomFilter.BasicBloomFilter log false_positive capacity
     = Ok (BasicBloomFilter.clear this) /\
     (1 <= BasicBloomFilter._hash_func_num this ->
      forall elem : T,
        BasicBloomFilter.contains MurmurHash3_x64_128
          (BasicBloomFilter.clear this) elem = Ok false)) /\
  (forall this : OrdinalBloomFilter.t,
     OrdinalBloomFilter.reachable MurmurHash3_x64_128 log false_positive capacity this ->
     OrdinalBloomFilter.OrdinalBloomFilter log false_positive capacity
     = Ok (OrdinalBloomFilter.clear this) /\
     (1 <= OrdinalBloomFilter._hash_func_num this ->
      forall elem : T,
        OrdinalBloomFilter.contains MurmurHash3_x64_128
          (OrdinalBloomFilter.clear this) elem = Ok false)).
Proof.
  split; intros this Hreach.
  - destruct (BasicFacts.basic_reachable_inv _ _ _ _ _ Hreach) as [Hwf Hfresh].
    split; [exact Hfresh|]. intros Hk elem.
    apply BasicFacts.basic_contains_clear; assumption.
  - destruct (OrdinalFacts.ordinal_reachable_inv _ _ _ _ _ Hreach) as [Hwf Hfresh].
    split; [exact Hfresh|]. intros Hk elem.
    apply OrdinalFacts.ordinal_contains_clear; assumption.
Qed.

Lemma clear_resets_witness :
  (exists this,
     BasicBloomFilter.add hash_sample
       (BasicBloomFilter.Build (vector_fill 96 false) 96 7) 42 = Ok this /\
     BasicBloomFilter.BasicBloomFilter log_sample 0x1.47ae147ae147bp-7%float 10
     = Ok (BasicBloomFilter.clear this) /\
     BasicBloomFilter.contains hash_sample (BasicBloomFilter.clear this) 42
     = Ok false) /\
  (exists this,
     OrdinalBloomFilter.add hash_sample
       (OrdinalBloomFilter.Build (vector_fill 96 0) 96 7) 42 = Ok this /\
     OrdinalBloomFilter.OrdinalBloomFilter log_sample 0x1.47ae147ae147bp-7%float 10
     = Ok (OrdinalBloomFilter.clear this) /\
     OrdinalBloomFilter.contains hash_sample (OrdinalBloomFilter.clear this) 42
     = Ok false).
Proof.
  split.
  - eexists. split; [vm_compute; reflexivity|].
    match goal with |- _ = Ok (BasicBloomFilter.clear ?this) /\ _ =>
      destruct (proj1 (clear_resets hash_sample log_sample
                         0x1.47ae147ae147bp-7%float 10) this) as [Hfresh Hfalse]
    end.
    + eapply BasicBloomFilter.reachable_add with (elem := 42).
      * apply BasicBloomFilter.reachable_ctor. vm_compute. reflexivity.
      * vm_compute. reflexivity.
    + split; [exact Hfresh|]. apply Hfalse. simpl. lia.
  - eexists. split; [vm_compute; reflexivity|].
    match goal with |- _ = Ok (OrdinalBloomFilter.clear ?this) /\ _ =>
      destruct (proj2 (clear_resets hash_sample log_sample
                         0x1.47ae147ae147bp-7%float 10) this) as [Hfresh Hfalse]
    end.
    + eapply OrdinalBloomFilter.reachable_add with (elem := 42).
      * apply OrdinalBloomFilter.reachable_ctor. vm_compute. reflexivity.
      * vm_compute. reflexivity.
    + split; [exact Hfresh|]. apply Hfalse. simpl. lia.
Defined.

(** C5 fails as stated. Either filter constructed with
    [(0.9, 1000)] has [220] cells and [hash_func_num = 0]: the loop of
    [contains] is not entered and [contains] returns [true] for every
    element, after [clear] as before. *)
Lemma clear_then_contains_true :
  ((0 <? 0x1.ccccccccccccdp-1) && (0x1.ccccccccccccdp-1 <? 1))%float = true /\
  (this ← BasicBloomFilter.BasicBloomFilter log_sample 0x1.ccccccccccccdp-1%float 1000;
   b ← BasicBloomFilter.contains hash_sample (BasicBloomFilter.clear this) 42;
   Ok (BasicBloomFilter._bit_array_size this, BasicBloomFilter._hash_func_num this, b))
  = Ok (220, 0, true) /\
  (this ← OrdinalBloomFilter.OrdinalBloomFilter log_sample 0x1.ccccccccccccdp-1%float 1000;
   b ← OrdinalBloomFilter.contains hash_sample (OrdinalBloomFilter.clear this) 42;
   Ok (OrdinalBloomFilter._bit_array_size this, OrdinalBloomFilter._hash_func_num this, b))
  = Ok (220, 0, true).
Proof. vm_compute. repeat split; reflexivity. Qed.

(** C6 at a NaN. A NaN is not inside [(0, 1)], but both comparisons of
    the test [false_positive <= 0 || false_positive >= 1] are false on
    it: neither constructor throws, and with a C library whose [log]
    returns a NaN on a NaN the conversion to [size_type] that follows is
    undefined. *)
Theorem constructors_accept_nan (log : float -> float) (capacity : Z) :
  ((0 <? nan) && (nan <? 1))%float = false /\
  (forall e, BasicBloomFilter.BasicBloomFilter log nan capacity <> Throw e) /\
  (forall e, OrdinalBloomFilter.OrdinalBloomFilter log nan capacity <> Throw e) /\
  BasicBloomFilter.BasicBloomFilter log_sample nan capacity = Undefined /\
  OrdinalBloomFilter.OrdinalBloomFilter log_sample nan capacity = Undefined.
Proof.
  split; [reflexivity|]. split; [|split].
  - intros e H. apply BasicFacts.basic_ctor_Throw in H as [H _]. discriminate H.
  - intros e H. apply OrdinalFacts.ordinal_ctor_Throw in H as [H _]. discriminate H.
  - assert (Hm : forall c : float,
               static_cast_size_type (ceil (- (c * nan / (log_sample 2 * log_sample 2)))%float)
               = Undefined).
    { intros c. unfold static_cast_size_type, ceil.
      assert (Hn : Prim2SF (- (c * nan / (log_sample 2 * log_sample 2)))%float = S754_nan).
      { rewrite opp_spec, div_spec, mul_spec.
        replace (Prim2SF nan) with S754_nan by reflexivity.
        destruct (Prim2SF c); reflexivity. }
      rewrite Hn, Hn. reflexivity. }
    unfold BasicBloomFilter.BasicBloomFilter, OrdinalBloomFilter.OrdinalBloomFilter.
    replace (log_sample nan) with nan by reflexivity.
    replace ((nan <=? 0) || (1 <=? nan))%float with false by reflexivity.
    cbv zeta. rewrite Hm. split; reflexivity.
Qed.





(** C9. Move construction, for both filters: the new filter has the
    array and the two scalars [rhs] had, and [rhs] is left with both
    scalars [0] and an empty array, so that no cell of it is a cell of
    the new filter. *)
Theorem move_ctor_transfers :
  (forall rhs : BasicBloomFilter.t,
     fst (BasicBloomFilter.move_ctor rhs) = rhs /\
     BasicBloomFilter._bit_array_size (snd (BasicBloomFilter.move_ctor rhs)) = 0 /\
     BasicBloomFilter._hash_func_num (snd (BasicBloomFilter.move_ctor rhs)) = 0 /\
     forall idx : nat,
       BasicBloomFilter._bits (snd (BasicBloomFilter.move_ctor rhs)) !! idx = None) /\
  (forall rhs : OrdinalBloomFilter.t,
     fst (OrdinalBloomFilter.move_ctor rhs) = rhs /\
     OrdinalBloomFilter._bit_array_size (snd (OrdinalBloomFilter.move_ctor rhs)) = 0 /\
     OrdinalBloomFilter._hash_func_num (snd (OrdinalBloomFilter.move_ctor rhs)) = 0 /\
     forall idx : nat,
       OrdinalBloomFilter._bits (snd (OrdinalBloomFilter.move_ctor rhs)) !! idx = None).
Proof.
  split; intros [bits size num]; repeat split.
Qed.

(** C10. [swap], for both filters: each filter ends with the array and
    the two scalars the other had, and swapping twice restores both. *)
Theorem swap_exchanges :
  (forall this rhs : BasicBloomFilter.t,
     BasicBloomFilter.swap this rhs = (rhs, this) /\
     (let '(this', rhs') := BasicBloomFilter.swap this rhs in
      BasicBloomFilter.swap this' rhs') = (this, rhs)) /\
  (forall this rhs : OrdinalBloomFilter.t,
     OrdinalBloomFilter.swap this rhs = (rhs, this) /\
     (let '(this', rhs') := OrdinalBloomFilter.swap this rhs in
      OrdinalBloomFilter.swap this' rhs') = (this, rhs)).
Proof.
  split; intros [bits1 size1 num1] [bits2 size2 num2]; split; reflexivity.
Qed.

(** * Further properties of BasicBloomFilter *)

Module BasicMore.
Import BasicBloomFilter.

Section More.

Context {T : Type}.
Variable MurmurHash3_x64_128 : T -> Z -> Z * Z.
Variable log : float -> float.

Local Abbreviation index := (index MurmurHash3_x64_128).
Local Abbreviation set_round := (set_round MurmurHash3_x64_128).
Local Abbreviation add_loop := (add_loop MurmurHash3_x64_128).
Local Abbreviation add := (add MurmurHash3_x64_128).
Local Abbreviation add_all := (add_all MurmurHash3_x64_128).
Local Abbreviation contains := (contains MurmurHash3_x64_128).
Local Abbreviation BasicBloomFilter := (BasicBloomFilter log).
Local Abbreviation reachable := (reachable MurmurHash3_x64_128 log).

Lemma basic_with_bits_id (this : t) : with_bits this (_bits this) = this.
Proof. destruct this; reflexivity. Qed.

Lemma set_round_length (size : Z) (elem : T) (bits : list bool) (i : Z) :
  length (set_round size elem bits i) = length bits.
Proof. apply length_insert. Qed.

Lemma foldl_set_round_length (size : Z) (elem : T) (rounds : list Z) :
  forall bits, length (foldl (set_round size elem) bits rounds) = length bits.
Proof.
  induction rounds as [|i rounds IH]; intros bits; simpl; [reflexivity|].
  rewrite IH. apply set_round_length.
Qed.

(** The loop of [add] from round [i] on returns, having run the rounds
    [i .. hash_func_num - 1] in order. *)
Lemma basic_add_loop_fold (elem : T) (fuel : nat) :
  forall (this : t) (i : Z),
    length (_bits this) = Z.to_nat (_bit_array_size this) ->
    0 < _bit_array_size this ->
    0 <= i ->
    _hash_func_num this < size_type_modulus ->
    _hash_func_num this - i <= Z.of_nat fuel ->
    add_loop fuel this elem i =
    Ok (with_bits this
          (foldl (set_round (_bit_array_size this) elem) (_bits this)
             (seqZ i (_hash_func_num this - i)))).
Proof.
  induction fuel as [|fuel IH]; intros this i Hlen Hm Hi Hk Hfuel; simpl.
  - destruct (Z.ltb_spec i (_hash_func_num this)); [lia|].
    rewrite seqZ_nil by lia. simpl. rewrite basic_with_bits_id. reflexivity.
  - destruct (Z.ltb_spec i (_hash_func_num this)) as [Hlt|Hge].
    + rewrite BasicFacts.basic_hash_at_n_Ok by assumption. simpl.
      pose proof (BasicFacts.basic_index_range MurmurHash3_x64_128
                    (_bit_array_size this) elem i Hm) as Hidx.
      unfold vector_set.
      destruct (Z.ltb_spec (index (_bit_array_size this) elem i) 0); [lia|].
      destruct (Nat.ltb_spec (Z.to_nat (index (_bit_array_size this) elem i))
                  (length (_bits this))) as [Hin|Hout]; [|lia].
      simpl. rewrite wrap64_small by lia.
      rewrite IH; simpl; try lia.
      2:{ rewrite length_insert. exact Hlen. }
      rewrite (seqZ_cons i) by lia. simpl.
      replace (Z.succ i) with (i + 1) by lia.
      replace (Z.pred (_hash_func_num this - i))
        with (_hash_func_num this - (i + 1)) by lia.
      reflexivity.
    + rewrite seqZ_nil by lia. simpl. rewrite basic_with_bits_id. reflexivity.
Qed.

(** [add] is the run of its rounds [0 .. hash_func_num - 1]. *)
Lemma basic_add_fold (this : t) (elem : T) :
  wf this ->
  add this elem =
  Ok (with_bits this
        (foldl (set_round (_bit_array_size this) elem) (_bits this)
           (seqZ 0 (_hash_func_num this)))).
Proof.
  intros (Hlen & Hm & Hk & Hz). unfold BasicBloomFilter.add.
  destruct (Z.eq_dec (_bit_array_size this) 0) as [Hm0|Hm0].
  - pose proof (Hz Hm0) as Hk0. rewrite Hk0. simpl. rewrite Hk0. simpl.
    rewrite basic_with_bits_id. reflexivity.
  - rewrite basic_add_loop_fold by lia.
    replace (_hash_func_num this - 0) with (_hash_func_num this) by lia.
    reflexivity.
Qed.

(** The bits set after a run of rounds: those set before and those the
    rounds land on. *)
Lemma foldl_set_round_lookup (size : Z) (elem : T) (rounds : list Z) :
  forall (bits : list bool) (j : nat),
    foldl (set_round size elem) bits rounds !! j = Some true <->
    bits !! j = Some true \/
    ((j < length bits)%nat /\
     exists r, r ∈ rounds /\ j = Z.to_nat (index size elem r)).
Proof.
  induction rounds as [|i rounds IH]; intros bits j; simpl.
  - split; [auto|]. intros [H|(_ & r & Hr & _)]; [exact H | inversion Hr].
  - rewrite IH, set_round_length. unfold BasicBloomFilter.set_round.
    rewrite list_lookup_insert_Some. split.
    + intros [[(Heq & _ & Hj)|(Hne & Hj)]|(Hj & r & Hr & Heq)].
      * right. split; [exact Hj|]. exists i. split; [apply elem_of_cons; auto | auto].
      * left. exact Hj.
      * right. split; [exact Hj|]. exists r. split; [apply elem_of_cons; auto | auto].
    + intros [Hj|(Hj & r & Hr & Heq)].
      * destruct (Nat.eq_dec (Z.to_nat (index size elem i)) j) as [Hij|Hij].
        -- left. left. split; [exact Hij|]. split; [reflexivity|].
           eapply lookup_lt_Some, Hj.
        -- left. right. auto.
      * apply elem_of_cons in Hr as [->|Hr].
        -- left. left. auto.
        -- right. split; [exact Hj|]. exists r. auto.
Qed.

(** Two arrays of the same length with the same bits set are equal. *)
Lemma bits_eq (bits1 bits2 : list bool) :
  length bits1 = length bits2 ->
  (forall j : nat, bits1 !! j = Some true <-> bits2 !! j = Some true) ->
  bits1 = bits2.
Proof.
  intros Hlen Hset. apply list_eq. intros j.
  destruct (bits1 !! j) as [b1|] eqn:H1, (bits2 !! j) as [b2|] eqn:H2.
  - destruct b1, b2; try reflexivity.
    + apply Hset in H1. congruence.
    + apply Hset in H2. congruence.
  - apply lookup_lt_Some in H1. apply lookup_ge_None in H2. lia.
  - apply lookup_ge_None in H1. apply lookup_lt_Some in H2. lia.
  - reflexivity.
Qed.

(** [add] on a filter that satisfies the invariant: the bits set after it
    are those set before and those its rounds land on. *)
Lemma basic_add_char (this : t) (elem : T) :
  wf this ->
  exists this',
    add this elem = Ok this' /\
    wf this' /\
    _bit_array_size this' = _bit_array_size this /\
    _hash_func_num this' = _hash_func_num this /\
    forall j : nat,
      _bits this' !! j = Some true <->
      _bits this !! j = Some true \/
      exists r, 0 <= r < _hash_func_num this /\
                j = Z.to_nat (index (_bit_array_size this) elem r).
Proof.
  intros Hwf.
  destruct (BasicFacts.basic_add_Ok MurmurHash3_x64_128 this elem Hwf)
    as (this' & Hadd & Hwf' & Hs & Hn & _).
  exists this'. split; [exact Hadd|]. split; [exact Hwf'|].
  split; [exact Hs|]. split; [exact Hn|].
  rewrite basic_add_fold in Hadd by exact Hwf. injection Hadd as <-. simpl.
  intros j. rewrite foldl_set_round_lookup.
  destruct Hwf as (Hlen & Hm & Hk & Hz). split.
  - intros [Hj|(_ & r & Hr & Heq)]; [auto|].
    apply elem_of_seqZ in Hr. right. exists r. split; [lia | exact Heq].
  - intros [Hj|(r & Hr & Heq)]; [auto|]. right.
    assert (Hpos : 0 < _bit_array_size this).
    { destruct (Z.eq_dec (_bit_array_size this) 0) as [H0|H0];
        [specialize (Hz H0)|]; lia. }
    pose proof (BasicFacts.basic_index_range MurmurHash3_x64_128
                  (_bit_array_size this) elem r Hpos) as Hidx.
    split; [lia|]. exists r. split; [apply elem_of_seqZ; lia | exact Heq].
Qed.

(** A run of [add] calls: the bits set after it are those set before and
    those a round of one of the elements lands on. *)
Lemma basic_add_all_char (elems : list T) :
  forall this : t,
    wf this ->
    exists this',
      add_all this elems = Ok this' /\
      wf this' /\
      _bit_array_size this' = _bit_array_size this /\
      _hash_func_num this' = _hash_func_num this /\
      forall j : nat,
        _bits this' !! j = Some true <->
        _bits this !! j = Some true \/
        exists elem r, elem ∈ elems /\ 0 <= r < _hash_func_num this /\
                       j = Z.to_nat (index (_bit_array_size this) elem r).
Proof.
  induction elems as [|elem elems IH]; intros this Hwf; simpl.
  - exists this. split; [reflexivity|]. split; [exact Hwf|].
    split; [reflexivity|]. split; [reflexivity|]. intros j. split; [auto|].
    intros [H|(e & r & He & _)]; [exact H | inversion He].
  - destruct (basic_add_char this elem Hwf) as (this1 & -> & Hwf1 & Hs1 & Hn1 & H1).
    simpl. destruct (IH this1 Hwf1) as (this' & Hrun & Hwf' & Hs & Hn & H').
    exists this'. split; [exact Hrun|]. split; [exact Hwf'|].
    split; [congruence|]. split; [congruence|].
    intros j. rewrite H', H1, Hs1, Hn1. split.
    + intros [[Hj|(r & Hr & Heq)]|(e & r & He & Hr & Heq)].
      * auto.
      * right. exists elem, r. split; [apply elem_of_cons; auto | auto].
      * right. exists e, r. split; [apply elem_of_cons; auto | auto].
    + intros [Hj|(e & r & He & Hr & Heq)]; [auto|].
      apply elem_of_cons in He as [->|He].
      * left. right. exists r. auto.
      * right. exists e, r. auto.
Qed.

(** X1. What [add] changes, and what it leaves alone: it returns, keeps
    the two scalars and the length of the array, and the bits set after
    it are exactly those set before and those the rounds
    [0 .. hash_func_num - 1] of the element land on. *)
Theorem basic_add_exact (p : float) (capacity : Z) (this : t) (elem : T) :
  reachable p capacity this ->
  exists this',
    add this elem = Ok this' /\
    _bit_array_size this' = _bit_array_size this /\
    _hash_func_num this' = _hash_func_num this /\
    length (_bits this') = length (_bits this) /\
    forall j : nat,
      _bits this' !! j = Some true <->
      _bits this !! j = Some true \/
      exists r, 0 <= r < _hash_func_num this /\
                j = Z.to_nat (index (_bit_array_size this) elem r).
Proof.
  intros Hreach.
  destruct (BasicFacts.basic_reachable_inv _ _ _ _ _ Hreach) as [Hwf _].
  destruct (basic_add_char this elem Hwf) as (this' & Hadd & Hwf' & Hs & Hn & Hset).
  exists this'. split; [exact Hadd|]. split; [exact Hs|]. split; [exact Hn|].
  split; [|exact Hset].
  destruct Hwf as (Hlen & _), Hwf' as (Hlen' & _). congruence.
Qed.

(** X2. Adding an element a second time changes nothing. *)
Theorem basic_add_idempotent (p : float) (capacity : Z) (this : t) (elem : T) :
  reachable p capacity this ->
  exists this',
    add this elem = Ok this' /\ add this' elem = Ok this'.
Proof.
  intros Hreach.
  destruct (BasicFacts.basic_reachable_inv _ _ _ _ _ Hreach) as [Hwf _].
  destruct (basic_add_char this elem Hwf) as (this1 & Hadd1 & Hwf1 & Hs1 & Hn1 & H1).
  destruct (basic_add_char this1 elem Hwf1) as (this2 & Hadd2 & Hwf2 & Hs2 & Hn2 & H2).
  exists this1. split; [exact Hadd1|]. rewrite Hadd2. f_equal.
  destruct this1 as [bits1 m1 k1], this2 as [bits2 m2 k2]. simpl in *. subst m2 k2.
  f_equal. apply bits_eq.
  - destruct Hwf1 as (Hl1 & _), Hwf2 as (Hl2 & _). simpl in *. congruence.
  - intros j. rewrite H2, H1, Hs1, Hn1. tauto.
Qed.

(** X3. The order of two [add] calls does not matter: both orders return
    and leave the same filter. *)
Theorem basic_add_commutes (p : float) (capacity : Z) (this : t) (elem1 elem2 : T) :
  reachable p capacity this ->
  exists this',
    (this1 ← add this elem1; add this1 elem2) = Ok this' /\
    (this2 ← add this elem2; add this2 elem1) = Ok this'.
Proof.
  intros Hreach.
  destruct (BasicFacts.basic_reachable_inv _ _ _ _ _ Hreach) as [Hwf _].
  destruct (basic_add_char this elem1 Hwf) as (this1 & Hadd1 & Hwf1 & Hs1 & Hn1 & H1).
  destruct (basic_add_char this1 elem2 Hwf1)
    as (this12 & Hadd12 & Hwf12 & Hs12 & Hn12 & H12).
  destruct (basic_add_char this elem2 Hwf) as (this2 & Hadd2 & Hwf2 & Hs2 & Hn2 & H2).
  destruct (basic_add_char this2 elem1 Hwf2)
    as (this21 & Hadd21 & Hwf21 & Hs21 & Hn21 & H21).
  exists this12. rewrite Hadd1, Hadd2. simpl. split; [exact Hadd12|].
  rewrite Hadd21. f_equal.
  destruct this12 as [bits12 m12 k12], this21 as [bits21 m21 k21]. simpl in *.
  assert (m21 = m12) as -> by congruence.
  assert (k21 = k12) as -> by congruence.
  f_equal. apply bits_eq.
  - destruct Hwf12 as (Hl12 & _), Hwf21 as (Hl21 & _). simpl in *. congruence.
  - intros j. rewrite H21, H2, H12, H1, Hs1, Hn1, Hs2, Hn2. tauto.
Qed.

(** X4. What [contains] answers on a filter that was constructed and then
    given the elements [elems]: it returns [true] for [elem] exactly when
    every round of [elem] lands on a cell that a round of one of [elems]
    landed on. *)
Theorem basic_membership_exact (p : float) (capacity : Z) (this0 : t)
    (elems : list T) (elem : T) :
  BasicBloomFilter p capacity = Ok this0 ->
  exists (this : t) (b : bool),
    add_all this0 elems = Ok this /\
    contains this elem = Ok b /\
    (b = true <->
     forall r, 0 <= r < _hash_func_num this0 ->
       exists elem' r',
         elem' ∈ elems /\ 0 <= r' < _hash_func_num this0 /\
         index (_bit_array_size this0) elem r
         = index (_bit_array_size this0) elem' r').
Proof.
  intros Hctor.
  destruct (BasicFacts.basic_ctor_Ok _ _ _ _ Hctor) as (Hwf & Hbits & _).
  destruct (basic_add_all_char elems this0 Hwf) as (this & Hrun & Hwf' & Hs & Hn & Hset).
  destruct (BasicFacts.basic_contains_Ok MurmurHash3_x64_128 this elem Hwf')
    as (b & Hc & Hb).
  exists this, b. split; [exact Hrun|]. split; [exact Hc|].
  rewrite Hb, Hs, Hn.
  assert (Hpos : forall r, 0 <= r < _hash_func_num this0 -> 0 < _bit_array_size this0).
  { intros r Hr. destruct Hwf as (_ & Hm & _ & Hz).
    destruct (Z.eq_dec (_bit_array_size this0) 0) as [H0|H0];
      [specialize (Hz H0)|]; lia. }
  assert (Hfresh : forall j : nat, _bits this0 !! j = Some true -> False).
  { intros j Hj. rewrite Hbits in Hj. unfold vector_fill in Hj.
    apply lookup_replicate in Hj as [Hj _]. discriminate Hj. }
  split; intros Hall r Hr.
  - specialize (Hall r Hr). apply Hset in Hall.
    destruct Hall as [Hj|(elem' & r' & He & Hr' & Heq)]; [destruct (Hfresh _ Hj)|].
    exists elem', r'. split; [exact He|]. split; [exact Hr'|].
    pose proof (BasicFacts.basic_index_range MurmurHash3_x64_128 _ elem r (Hpos r Hr)).
    pose proof (BasicFacts.basic_index_range MurmurHash3_x64_128 _ elem' r' (Hpos r Hr)).
    apply Z2Nat.inj; lia.
  - destruct (Hall r Hr) as (elem' & r' & He & Hr' & Heq).
    apply Hset. right. exists elem', r'. rewrite Heq. auto.
Qed.

Lemma popcount_insert (bits : list bool) :
  forall i : nat, (popcount (<[i := true]> bits) <= S (popcount bits))%nat.
Proof.
  unfold popcount.
  induction bits as [|bit bits IH]; intros i; simpl; [lia|].
  destruct i as [|i]; simpl.
  - rewrite !filter_cons. destruct (decide (true = true)) as [_|H]; [|congruence].
    destruct (decide (bit = true)); simpl; lia.
  - rewrite !filter_cons. specialize (IH i).
    destruct (decide (bit = true)); simpl; lia.
Qed.

Lemma popcount_foldl_set_round (size : Z) (elem : T) (rounds : list Z) :
  forall bits,
    (popcount (foldl (set_round size elem) bits rounds)
     <= popcount bits + length rounds)%nat.
Proof.
  induction rounds as [|i rounds IH]; intros bits; simpl; [lia|].
  specialize (IH (set_round size elem bits i)).
  pose proof (popcount_insert bits (Z.to_nat (index size elem i))) as Hi.
  unfold BasicBloomFilter.set_round in *. lia.
Qed.

Lemma popcount_add_all (elems : list T) :
  forall this : t,
    wf this ->
    exists this',
      add_all this elems = Ok this' /\
      (popcount (_bits this')
       <= popcount (_bits this) + length elems * Z.to_nat (_hash_func_num this))%nat.
Proof.
  induction elems as [|elem elems IH]; intros this Hwf; simpl.
  - exists this. split; [reflexivity | lia].
  - destruct (BasicFacts.basic_add_Ok MurmurHash3_x64_128 this elem Hwf)
      as (this1 & Hadd & Hwf1 & Hs1 & Hn1 & _).
    rewrite Hadd. simpl.
    destruct (IH this1 Hwf1) as (this' & Hrun & Hle).
    exists this'. split; [exact Hrun|].
    rewrite basic_add_fold in Hadd by exact Hwf. injection Hadd as <-.
    simpl in Hle.
    pose proof (popcount_foldl_set_round (_bit_array_size this) elem
                  (seqZ 0 (_hash_func_num this)) (_bits this)) as H1.
    rewrite length_seqZ in H1. lia.
Qed.

(** X5. A filter that was constructed and then given [n] elements has at
    most [n * hash_func_num] bits set. *)
Theorem basic_fill_bound (p : float) (capacity : Z) (this0 : t) (elems : list T) :
  BasicBloomFilter p capacity = Ok this0 ->
  exists this : t,
    add_all this0 elems = Ok this /\
    (popcount (_bits this) <= length elems * Z.to_nat (_hash_func_num this0))%nat.
Proof.
  intros Hctor.
  destruct (BasicFacts.basic_ctor_Ok _ _ _ _ Hctor) as (Hwf & Hbits & _).
  destruct (popcount_add_all elems this0 Hwf) as (this & Hrun & Hle).
  exists this. split; [exact Hrun|].
  assert (H0 : popcount (_bits this0) = 0%nat).
  { rewrite Hbits. unfold vector_fill, popcount.
    induction (Z.to_nat (_bit_array_size this0)) as [|n IH]; [reflexivity|].
    simpl. rewrite filter_cons. destruct (decide (false = true)); [congruence | exact IH]. }
  lia.
Qed.

End More.

End BasicMore.

(** * Further properties of OrdinalBloomFilter *)

Module OrdinalMore.
Import OrdinalBloomFilter.

Section More.

Context {T : Type}.
Variable MurmurHash3_x64_128 : T -> Z -> Z * Z.
Variable log : float -> float.

Local Abbreviation index := (index MurmurHash3_x64_128).
Local Abbreviation max_round := (max_round MurmurHash3_x64_128).
Local Abbreviation add_spec := (add_spec MurmurHash3_x64_128).
Local Abbreviation add := (add MurmurHash3_x64_128).
Local Abbreviation add_all := (add_all MurmurHash3_x64_128).
Local Abbreviation contains := (contains MurmurHash3_x64_128).
Local Abbreviation OrdinalBloomFilter := (OrdinalBloomFilter log).
Local Abbreviation reachable := (reachable MurmurHash3_x64_128 log).

(** What a round of [add] does to the test [holds_round]. *)
Lemma max_round_holds (size : Z) (elem : T) (bits : list Z) (i : Z) (j : nat) (r : Z) :
  (Z.to_nat (index size elem i) < length bits)%nat ->
  holds_round (max_round size elem bits i) j r <->
  holds_round bits j r \/ (j = Z.to_nat (index size elem i) /\ r <= i).
Proof.
  intros Hin. unfold holds_round, OrdinalBloomFilter.max_round.
  destruct (lookup_lt_is_Some_2 bits _ Hin) as [cell Hcell]. rewrite Hcell.
  split.
  - intros (c & Hc & Hle). apply list_lookup_insert_Some in Hc
      as [(Heq & <- & Hj)|(Hne & Hc)].
    + subst j. destruct (Z_le_gt_dec r cell); [left; eauto | right; split; [auto|lia]].
    + left. eauto.
  - intros [(c & Hc & Hle)|(-> & Hle)].
    + destruct (Nat.eq_dec (Z.to_nat (index size elem i)) j) as [Heq|Hne].
      * subst j. rewrite Hcell in Hc. injection Hc as ->.
        exists (Z.max c i). split; [apply list_lookup_insert_eq, Hin | lia].
      * exists c. rewrite list_lookup_insert_ne by exact Hne. auto.
    + exists (Z.max cell i). split; [apply list_lookup_insert_eq, Hin | lia].
Qed.

Lemma foldl_max_round_holds (size : Z) (elem : T) (rounds : list Z) :
  0 < size ->
  forall (bits : list Z) (j : nat) (r : Z),
    length bits = Z.to_nat size ->
    holds_round (foldl (max_round size elem) bits rounds) j r <->
    holds_round bits j r \/
    exists i, i ∈ rounds /\ j = Z.to_nat (index size elem i) /\ r <= i.
Proof.
  intros Hs. induction rounds as [|i rounds IH]; intros bits j r Hlen; simpl.
  - split; [auto|]. intros [H|(i & Hi & _)]; [exact H | inversion Hi].
  - pose proof (OrdinalFacts.ordinal_index_range MurmurHash3_x64_128 size elem i Hs)
      as Hidx.
    rewrite IH by (rewrite OrdinalFacts.max_round_length; exact Hlen).
    rewrite max_round_holds by lia. split.
    + intros [[H|(Hj & Hle)]|(i' & Hi' & Hj & Hle)].
      * auto.
      * right. exists i. split; [apply elem_of_cons; auto | auto].
      * right. exists i'. split; [apply elem_of_cons; auto | auto].
    + intros [H|(i' & Hi' & Hj & Hle)]; [auto|].
      apply elem_of_cons in Hi' as [->|Hi']; [auto|].
      right. exists i'. auto.
Qed.

(** Two arrays of the same length whose cells pass the same tests are
    equal. *)
Lemma cells_eq (bits1 bits2 : list Z) :
  length bits1 = length bits2 ->
  (forall (j : nat) (r : Z), holds_round bits1 j r <-> holds_round bits2 j r) ->
  bits1 = bits2.
Proof.
  intros Hlen Hsame. apply list_eq. intros j.
  destruct (bits1 !! j) as [c1|] eqn:H1, (bits2 !! j) as [c2|] eqn:H2.
  - assert (Ha : holds_round bits1 j c1) by (exists c1; split; [exact H1 | lia]).
    assert (Hb : holds_round bits2 j c2) by (exists c2; split; [exact H2 | lia]).
    apply Hsame in Ha as (c & Hc & Hle). apply Hsame in Hb as (c' & Hc' & Hle').
    rewrite H2 in Hc. rewrite H1 in Hc'. injection Hc as <-. injection Hc' as <-.
    f_equal. lia.
  - apply lookup_lt_Some in H1. apply lookup_ge_None in H2. lia.
  - apply lookup_ge_None in H1. apply lookup_lt_Some in H2. lia.
  - reflexivity.
Qed.

(** [add] with at most [255] rounds on a filter that satisfies the
    invariant: a cell passes the test of round [r] after it when it did
    before or a round [i >= r] of the element lands on it. *)
Lemma ordinal_add_char (this : t) (elem : T) :
  wf this ->
  _hash_func_num this < elem_type_modulus ->
  exists this',
    add this elem = Ok this' /\
    wf this' /\
    _bit_array_size this' = _bit_array_size this /\
    _hash_func_num this' = _hash_func_num this /\
    forall (j : nat) (r : Z),
      holds_round (_bits this') j r <->
      holds_round (_bits this) j r \/
      exists i, 1 <= i <= _hash_func_num this /\ r <= i /\
                j = Z.to_nat (index (_bit_array_size this) elem i).
Proof.
  intros Hwf Hk.
  destruct (OrdinalFacts.ordinal_add_small MurmurHash3_x64_128 this elem Hwf Hk)
    as [Hadd Hwf'].
  exists (add_spec this elem). split; [exact Hadd|]. split; [exact Hwf'|].
  split; [reflexivity|]. split; [reflexivity|]. simpl.
  destruct Hwf as (Hlen & Hm & Hn & Hz & _).
  destruct (Z.eq_dec (_bit_array_size this) 0) as [H0|H0].
  - specialize (Hz H0). rewrite Hz, seqZ_nil by lia. simpl. intros j r.
    split; [auto|]. intros [H|(i & Hi & _)]; [exact H | lia].
  - intros j r. rewrite foldl_max_round_holds by (lia || exact Hlen). split.
    + intros [H|(i & Hi & Hj & Hle)]; [auto|].
      apply elem_of_seqZ in Hi. right. exists i. split; [lia | auto].
    + intros [H|(i & Hi & Hle & Hj)]; [auto|].
      right. exists i. split; [apply elem_of_seqZ; lia | auto].
Qed.

Lemma ordinal_add_all_char (elems : list T) :
  forall this : t,
    wf this ->
    _hash_func_num this < elem_type_modulus ->
    exists this',
      add_all this elems = Ok this' /\
      wf this' /\
      _bit_array_size this' = _bit_array_size this /\
      _hash_func_num this' = _hash_func_num this /\
      forall (j : nat) (r : Z),
        holds_round (_bits this') j r <->
        holds_round (_bits this) j r \/
        exists elem i, elem ∈ elems /\ 1 <= i <= _hash_func_num this /\ r <= i /\
                       j = Z.to_nat (index (_bit_array_size this) elem i).
Proof.
  induction elems as [|elem elems IH]; intros this Hwf Hk; simpl.
  - exists this. split; [reflexivity|]. split; [exact Hwf|].
    split; [reflexivity|]. split; [reflexivity|]. intros j r. split; [auto|].
    intros [H|(e & i & He & _)]; [exact H | inversion He].
  - destruct (ordinal_add_char this elem Hwf Hk)
      as (this1 & -> & Hwf1 & Hs1 & Hn1 & H1).
    simpl. destruct (IH this1 Hwf1) as (this' & Hrun & Hwf' & Hs & Hn & H');
      [congruence|].
    exists this'. split; [exact Hrun|]. split; [exact Hwf'|].
    split; [congruence|]. split; [congruence|].
    intros j r. rewrite H', H1, Hs1, Hn1. split.
    + intros [[H|(i & Hi & Hle & Hj)]|(e & i & He & Hi & Hle & Hj)].
      * auto.
      * right. exists elem, i. split; [apply elem_of_cons; auto | auto].
      * right. exists e, i. split; [apply elem_of_cons; auto | auto].
    + intros [H|(e & i & He & Hi & Hle & Hj)]; [auto|].
      apply elem_of_cons in He as [->|He].
      * left. right. exists i. auto.
      * right. exists e, i. auto.
Qed.

(** X6. What [add] changes with at most [255] rounds, and what it leaves
    alone: it returns, keeps the two scalars and the length of the
    array, and a cell holds at least [r] after it exactly when it did
    before or a round [i >= r] of the element lands on it. *)
Theorem ordinal_add_exact (p : float) (capacity : Z) (this : t) (elem : T) :
  reachable p capacity this ->
  _hash_func_num this <= 255 ->
  exists this',
    add this elem = Ok this' /\
    _bit_array_size this' = _bit_array_size this /\
    _hash_func_num this' = _hash_func_num this /\
    length (_bits this') = length (_bits this) /\
    forall (j : nat) (r : Z),
      holds_round (_bits this') j r <->
      holds_round (_bits this) j r \/
      exists i, 1 <= i <= _hash_func_num this /\ r <= i /\
                j = Z.to_nat (index (_bit_array_size this) elem i).
Proof.
  intros Hreach Hsmall.
  destruct (OrdinalFacts.ordinal_reachable_inv _ _ _ _ _ Hreach) as [Hwf _].
  destruct (ordinal_add_char this elem Hwf)
    as (this' & Hadd & Hwf' & Hs & Hn & Hset);
    [unfold elem_type_modulus; lia|].
  exists this'. split; [exact Hadd|]. split; [exact Hs|]. split; [exact Hn|].
  split; [|exact Hset].
  destruct Hwf as (Hlen & _), Hwf' as (Hlen' & _). congruence.
Qed.

(** X7. With at most [255] rounds, adding an element a second time
    changes nothing, and the order of two [add] calls does not matter. *)
Theorem ordinal_add_idempotent_commutes (p : float) (capacity : Z) (this : t)
    (elem1 elem2 : T) :
  reachable p capacity this ->
  _hash_func_num this <= 255 ->
  (exists this1,
     add this elem1 = Ok this1 /\ add this1 elem1 = Ok this1) /\
  (exists this',
     (this1 ← add this elem1; add this1 elem2) = Ok this' /\
     (this2 ← add this elem2; add this2 elem1) = Ok this').
Proof.
  intros Hreach Hsmall.
  destruct (OrdinalFacts.ordinal_reachable_inv _ _ _ _ _ Hreach) as [Hwf _].
  assert (Hk : _hash_func_num this < elem_type_modulus)
    by (unfold elem_type_modulus; lia).
  destruct (ordinal_add_char this elem1 Hwf Hk)
    as (this1 & Hadd1 & Hwf1 & Hs1 & Hn1 & H1).
  destruct (ordinal_add_char this1 elem1 Hwf1)
    as (this11 & Hadd11 & Hwf11 & Hs11 & Hn11 & H11); [congruence|].
  destruct (ordinal_add_char this1 elem2 Hwf1)
    as (this12 & Hadd12 & Hwf12 & Hs12 & Hn12 & H12); [congruence|].
  destruct (ordinal_add_char this elem2 Hwf Hk)
    as (this2 & Hadd2 & Hwf2 & Hs2 & Hn2 & H2).
  destruct (ordinal_add_char this2 elem1 Hwf2)
    as (this21 & Hadd21 & Hwf21 & Hs21 & Hn21 & H21); [congruence|].
  split.
  - exists this1. split; [exact Hadd1|]. rewrite Hadd11. f_equal.
    destruct this1 as [bits1 m1 k1], this11 as [bits11 m11 k11]. simpl in *.
    subst m11 k11. f_equal. apply cells_eq.
    + destruct Hwf1 as (Hl1 & _), Hwf11 as (Hl11 & _). simpl in *. congruence.
    + intros j r. rewrite H11, H1, Hs1, Hn1. tauto.
  - exists this12. rewrite Hadd1, Hadd2. simpl. split; [exact Hadd12|].
    rewrite Hadd21. f_equal.
    destruct this12 as [bits12 m12 k12], this21 as [bits21 m21 k21]. simpl in *.
    assert (m21 = m12) as -> by congruence.
    assert (k21 = k12) as -> by congruence.
    f_equal. apply cells_eq.
    + destruct Hwf12 as (Hl12 & _), Hwf21 as (Hl21 & _). simpl in *. congruence.
    + intros j r. rewrite H21, H2, H12, H1, Hs1, Hn1, Hs2, Hn2. tauto.
Qed.

(** X8. What [contains] answers, with at most [255] rounds, on a filter
    that was constructed and then given the elements [elems]: it returns
    [true] for [elem] exactly when every round [r] of [elem] lands on a
    cell that a round [r' >= r] of one of [elems] landed on. *)
Theorem ordinal_membership_exact (p : float) (capacity : Z) (this0 : t)
    (elems : list T) (elem : T) :
  OrdinalBloomFilter p capacity = Ok this0 ->
  _hash_func_num this0 <= 255 ->
  exists (this : t) (b : bool),
    add_all this0 elems = Ok this /\
    contains this elem = Ok b /\
    (b = true <->
     forall r, 1 <= r <= _hash_func_num this0 ->
       exists elem' r',
         elem' ∈ elems /\ r <= r' <= _hash_func_num this0 /\
         index (_bit_array_size this0) elem r
         = index (_bit_array_size this0) elem' r').
Proof.
  intros Hctor Hsmall.
  destruct (OrdinalFacts.ordinal_ctor_Ok _ _ _ _ Hctor) as (Hwf & Hbits & _).
  destruct (ordinal_add_all_char elems this0 Hwf)
    as (this & Hrun & Hwf' & Hs & Hn & Hset);
    [unfold elem_type_modulus; lia|].
  destruct (OrdinalFacts.ordinal_contains_Ok MurmurHash3_x64_128 this elem Hwf')
    as (b & Hc & Hb).
  exists this, b. split; [exact Hrun|]. split; [exact Hc|].
  rewrite Hb, Hs, Hn.
  assert (Hpos : forall r, 1 <= r <= _hash_func_num this0 -> 0 < _bit_array_size this0).
  { intros r Hr. destruct Hwf as (_ & Hm & _ & Hz & _).
    destruct (Z.eq_dec (_bit_array_size this0) 0) as [H0|H0];
      [specialize (Hz H0)|]; lia. }
  assert (Hfresh : forall (j : nat) (r : Z),
             1 <= r -> holds_round (_bits this0) j r -> False).
  { intros j r Hr (c & Hj & Hle). rewrite Hbits in Hj. unfold vector_fill in Hj.
    apply lookup_replicate in Hj as [-> _]. lia. }
  split; intros Hall r Hr.
  - specialize (Hall r Hr). apply (Hset _ r) in Hall.
    destruct Hall as [Hj|(elem' & r' & He & Hr' & Hle & Heq)];
      [destruct (Hfresh _ r (proj1 Hr) Hj)|].
    exists elem', r'. split; [exact He|]. split; [lia|].
    pose proof (OrdinalFacts.ordinal_index_range MurmurHash3_x64_128 _ elem r (Hpos r Hr)).
    pose proof (OrdinalFacts.ordinal_index_range MurmurHash3_x64_128 _ elem' r' (Hpos r Hr)).
    apply Z2Nat.inj; lia.
  - destruct (Hall r Hr) as (elem' & r' & He & Hr' & Heq).
    apply (Hset _ r). right. exists elem', r'. rewrite Heq.
    split; [exact He|]. split; [lia|]. split; [lia | reflexivity].
Qed.

(** X9. A filter with [256] rounds or more reports every element absent,
    whatever was added to it. *)
Theorem ordinal_saturated (p : float) (capacity : Z) (this : t) (elem : T) :
  reachable p capacity this ->
  256 <= _hash_func_num this ->
  contains this elem = Ok false.
Proof.
  intros Hreach Hbig.
  destruct (OrdinalFacts.ordinal_reachable_inv _ _ _ _ _ Hreach) as [Hwf _].
  apply OrdinalFacts.ordinal_contains_false; [exact Hwf | exact Hbig].
Qed.

Lemma foldl_max_round_bound (size : Z) (elem : T) (bound : Z) (rounds : list Z) :
  Forall (fun i => i <= bound) rounds ->
  forall bits,
    Forall (fun cell => 0 <= cell <= bound) bits ->
    Forall (fun cell => 0 <= cell <= bound) (foldl (max_round size elem) bits rounds).
Proof.
  induction 1 as [|i rounds Hi _ IH]; intros bits Hbits; simpl; [exact Hbits|].
  apply IH. unfold OrdinalBloomFilter.max_round.
  destruct (bits !! _) as [cell|] eqn:Hcell; [|exact Hbits].
  apply Forall_insert; [exact Hbits|].
  apply (Forall_lookup_1 _ _ _ _ Hbits) in Hcell. lia.
Qed.

(** X10. Every cell of a constructed filter holds a round number: a value
    between [0] and [hash_func_num], and at most [255]. *)
Theorem ordinal_cells_bounded (p : float) (capacity : Z) (this : t) :
  reachable p capacity this ->
  Forall (fun cell => 0 <= cell <= Z.min (_hash_func_num this) 255) (_bits this).
Proof.
  induction 1 as [this Hc|this elem this' Hreach IH Hadd|this Hreach IH].
  - destruct (OrdinalFacts.ordinal_ctor_Ok _ _ _ _ Hc) as (Hwf & Hbits & _).
    rewrite Hbits. apply Forall_replicate.
    destruct Hwf as (_ & _ & Hk & _). lia.
  - destruct (OrdinalFacts.ordinal_reachable_inv _ _ _ _ _ Hreach) as [Hwf _].
    destruct (Z_lt_le_dec (_hash_func_num this) elem_type_modulus) as [Hk|Hbig].
    + destruct (OrdinalFacts.ordinal_add_small MurmurHash3_x64_128 this elem Hwf Hk)
        as [Hadd' _].
      rewrite Hadd in Hadd'. injection Hadd' as ->. simpl.
      apply foldl_max_round_bound; [|exact IH].
      apply Forall_seqZ. intros i Hi. unfold elem_type_modulus in Hk. lia.
    + destruct (OrdinalFacts.ordinal_add_Ok MurmurHash3_x64_128 this elem Hwf)
        as (this2 & Hadd2 & Hwf2 & _ & Hn & _).
      rewrite Hadd in Hadd2. injection Hadd2 as <-.
      destruct Hwf2 as (_ & _ & _ & _ & Hcells).
      eapply Forall_impl; [exact Hcells|].
      intros cell Hcell. unfold cell_ok, elem_type_modulus in *. lia.
  - simpl. apply Forall_replicate.
    destruct (OrdinalFacts.ordinal_reachable_inv _ _ _ _ _ Hreach) as [Hwf _].
    destruct Hwf as (_ & _ & Hk & _). lia.
Qed.

End More.

End OrdinalMore.

(** * Further properties of the constructors and of the moves *)








(** X13. Move assignment of the basic filter: assigning a filter to
    itself leaves the store as it is; between two distinct filters the
    target takes the state of the source, the source is left with both
    scalars [0], so that [add] returns it unchanged and [contains]
    returns [true] for every element, and no other object is touched. *)
Theorem basic_move_assign (left : list bool) (store : list BasicBloomFilter.t)
    (this rhs : nat) (this_obj rhs_obj : BasicBloomFilter.t) :
  store !! this = Some this_obj ->
  store !! rhs = Some rhs_obj ->
  exists store',
    BasicBloomFilter.move_assign left store this rhs = Ok store' /\
    length store' = length store /\
    (this = rhs -> store' = store) /\
    (this <> rhs ->
     store' !! this = Some rhs_obj /\
     (exists moved,
        store' !! rhs = Some moved /\
        BasicBloomFilter._bit_array_size moved = 0 /\
        BasicBloomFilter._hash_func_num moved = 0 /\
        forall (T : Type) (MurmurHash3_x64_128 : T -> Z -> Z * Z) (elem : T),
          BasicBloomFilter.add MurmurHash3_x64_128 moved elem = Ok moved /\
          BasicBloomFilter.contains MurmurHash3_x64_128 moved elem = Ok true) /\
     forall other : nat,
       other <> this -> other <> rhs -> store' !! other = store !! other).
Proof.
  intros Hthis Hrhs. unfold BasicBloomFilter.move_assign. rewrite Hthis, Hrhs.
  pose proof (lookup_lt_Some _ _ _ Hthis) as Lthis.
  pose proof (lookup_lt_Some _ _ _ Hrhs) as Lrhs.
  destruct (Nat.eqb_spec this rhs) as [Heq|Hne]; simpl.
  - exists store. split; [reflexivity|]. split; [reflexivity|].
    split; [reflexivity|]. intros Hne. destruct (Hne Heq).
  - eexists. split; [reflexivity|]. rewrite !length_insert.
    split; [reflexivity|]. split; [intros Heq; destruct (Hne Heq)|].
    intros _. split; [|split].
    + rewrite list_lookup_insert_ne by auto.
      rewrite list_lookup_insert_eq by exact Lthis.
      destruct rhs_obj; reflexivity.
    + eexists. split.
      * apply list_lookup_insert_eq. rewrite length_insert. exact Lrhs.
      * simpl. repeat split.
    + intros other H1 H2. rewrite !list_lookup_insert_ne by auto. reflexivity.
Qed.

Lemma basic_move_assign_witness :
  BasicBloomFilter.move_assign []
    [BasicBloomFilter.Build [false; false] 2 1;
     BasicBloomFilter.Build [true; false; true] 3 2;
     BasicBloomFilter.Build [true] 1 1] 0 1
  = Ok [BasicBloomFilter.Build [true; false; true] 3 2;
        BasicBloomFilter.Build [] 0 0;
        BasicBloomFilter.Build [true] 1 1] /\
  exists store',
    BasicBloomFilter.move_assign []
      [BasicBloomFilter.Build [false; false] 2 1;
       BasicBloomFilter.Build [true; false; true] 3 2;
       BasicBloomFilter.Build [true] 1 1] 1 1 = Ok store' /\
    length store' = 3%nat.
Proof.
  split; [reflexivity|].
  destruct (basic_move_assign []
              [BasicBloomFilter.Build [false; false] 2 1;
               BasicBloomFilter.Build [true; false; true] 3 2;
               BasicBloomFilter.Build [true] 1 1] 1 1
              (BasicBloomFilter.Build [true; false; true] 3 2)
              (BasicBloomFilter.Build [true; false; true] 3 2)
              eq_refl eq_refl)
    as (store' & Hrun & Hlen & _).
  exists store'. split; [exact Hrun | exact Hlen].
Defined.

(** X14. Move assignment of the ordinal filter: assigning a filter to
    itself leaves the store as it is; between two distinct filters the
    target takes the state of the source, the source is left with both
    scalars [0], so that [add] returns it unchanged and [contains]
    returns [true] for every element, and no other object is touched. *)
Theorem ordinal_move_assign (left : list Z) (store : list OrdinalBloomFilter.t)
    (this rhs : nat) (this_obj rhs_obj : OrdinalBloomFilter.t) :
  store !! this = Some this_obj ->
  store !! rhs = Some rhs_obj ->
  exists store',
    OrdinalBloomFilter.move_assign left store this rhs = Ok store' /\
    length store' = length store /\
    (this = rhs -> store' = store) /\
    (this <> rhs ->
     store' !! this = Some rhs_obj /\
     (exists moved,
        store' !! rhs = Some moved /\
        OrdinalBloomFilter._bit_array_size moved = 0 /\
        OrdinalBloomFilter._hash_func_num moved = 0 /\
        forall (T : Type) (MurmurHash3_x64_128 : T -> Z -> Z * Z) (elem : T),
          OrdinalBloomFilter.add MurmurHash3_x64_128 moved elem = Ok moved /\
          OrdinalBloomFilter.contains MurmurHash3_x64_128 moved elem = Ok true) /\
     forall other : nat,
       other <> this -> other <> rhs -> store' !! other = store !! other).
Proof.
  intros Hthis Hrhs. unfold OrdinalBloomFilter.move_assign. rewrite Hthis, Hrhs.
  pose proof (lookup_lt_Some _ _ _ Hthis) as Lthis.
  pose proof (lookup_lt_Some _ _ _ Hrhs) as Lrhs.
  destruct (Nat.eqb_spec this rhs) as [Heq|Hne]; simpl.
  - exists store. split; [reflexivity|]. split; [reflexivity|].
    split; [reflexivity|]. intros Hne. destruct (Hne Heq).
  - eexists. split; [reflexivity|]. rewrite !length_insert.
    split; [reflexivity|]. split; [intros Heq; destruct (Hne Heq)|].
    intros _. split; [|split].
    + rewrite list_lookup_insert_ne by auto.
      rewrite list_lookup_insert_eq by exact Lthis.
      destruct rhs_obj; reflexivity.
    + eexists. split.
      * apply list_lookup_insert_eq. rewrite length_insert. exact Lrhs.
      * simpl. repeat split.
    + intros other H1 H2. rewrite !list_lookup_insert_ne by auto. reflexivity.
Qed.

Lemma ordinal_move_assign_witness :
  OrdinalBloomFilter.move_assign []
    [OrdinalBloomFilter.Build [0; 0] 2 1;
     OrdinalBloomFilter.Build [2; 0; 1] 3 2;
     OrdinalBloomFilter.Build [1] 1 1] 0 1
  = Ok [OrdinalBloomFilter.Build [2; 0; 1] 3 2;
        OrdinalBloomFilter.Build [] 0 0;
        OrdinalBloomFilter.Build [1] 1 1] /\
  exists store',
    OrdinalBloomFilter.move_assign []
      [OrdinalBloomFilter.Build [0; 0] 2 1;
       OrdinalBloomFilter.Build [2; 0; 1] 3 2;
       OrdinalBloomFilter.Build [1] 1 1] 1 1 = Ok store' /\
    length store' = 3%nat.
Proof.
  split; [reflexivity|].
  destruct (ordinal_move_assign []
              [OrdinalBloomFilter.Build [0; 0] 2 1;
               OrdinalBloomFilter.Build [2; 0; 1] 3 2;
               OrdinalBloomFilter.Build [1] 1 1] 1 1
              (OrdinalBloomFilter.Build [2; 0; 1] 3 2)
              (OrdinalBloomFilter.Build [2; 0; 1] 3 2)
              eq_refl eq_refl)
    as (store' & Hrun & Hlen & _).
  exists store'. split; [exact Hrun | exact Hlen].
Defined.

(** * The further properties on sample filters *)

Lemma basic_add_exact_witness :
  exists this',
    BasicBloomFilter.add hash_sample
      (BasicBloomFilter.Build (vector_fill 96 false) 96 7) 42 = Ok this' /\
    length (BasicBloomFilter._bits this') = 96%nat /\
    BasicBloomFilter._bits this' !! 45%nat = Some true.
Proof.
  assert (Hreach : BasicBloomFilter.reachable hash_sample log_sample
                     0x1.47ae147ae147bp-7%float 10
                     (BasicBloomFilter.Build (vector_fill 96 false) 96 7))
    by (apply BasicBloomFilter.reachable_ctor; vm_compute; reflexivity).
  destruct (BasicMore.basic_add_exact hash_sample log_sample _ _ _ 42 Hreach)
    as (this' & Hadd & _ & _ & Hlen & Hset).
  exists this'. split; [exact Hadd|]. split; [exact Hlen|].
  apply Hset. right. exists 3. split; [simpl; lia | reflexivity].
Defined.

Lemma basic_add_idempotent_witness :
  exists this',
    BasicBloomFilter.add hash_sample
      (BasicBloomFilter.Build (vector_fill 96 false) 96 7) 42 = Ok this' /\
    BasicBloomFilter.add hash_sample this' 42 = Ok this'.
Proof.
  apply (BasicMore.basic_add_idempotent hash_sample log_sample
           0x1.47ae147ae147bp-7%float 10).
  apply BasicBloomFilter.reachable_ctor. vm_compute. reflexivity.
Defined.

Lemma basic_add_commutes_witness :
  exists this',
    (this1 ← BasicBloomFilter.add hash_sample
               (BasicBloomFilter.Build (vector_fill 96 false) 96 7) 42;
     BasicBloomFilter.add hash_sample this1 44) = Ok this' /\
    (this2 ← BasicBloomFilter.add hash_sample
               (BasicBloomFilter.Build (vector_fill 96 false) 96 7) 44;
     BasicBloomFilter.add hash_sample this2 42) = Ok this'.
Proof.
  apply (BasicMore.basic_add_commutes hash_sample log_sample
           0x1.47ae147ae147bp-7%float 10).
  apply BasicBloomFilter.reachable_ctor. vm_compute. reflexivity.
Defined.

Lemma basic_membership_exact_witness :
  exists (this : BasicBloomFilter.t) (b : bool),
    BasicBloomFilter.add_all hash_sample
      (BasicBloomFilter.Build (vector_fill 96 false) 96 7) [42; 44] = Ok this /\
    BasicBloomFilter.contains hash_sample this 43 = Ok b /\
    b = true.
Proof.
  destruct (BasicMore.basic_membership_exact hash_sample log_sample
              0x1.47ae147ae147bp-7%float 10
              (BasicBloomFilter.Build (vector_fill 96 false) 96 7) [42; 44] 43)
    as (this & b & Hrun & Hc & Hb); [vm_compute; reflexivity|].
  exists this, b. split; [exact Hrun|]. split; [exact Hc|].
  apply Hb. simpl. intros r Hr.
  destruct (Z_lt_le_dec r 6) as [Hlt|Hge].
  - exists 42, (r + 1). split; [apply elem_of_cons; auto|]. split; [lia|].
    unfold BasicBloomFilter.index, hash_sample. f_equal. unfold wrap64. f_equal. lia.
  - exists 44, (r - 1). split; [apply elem_of_cons; right; apply elem_of_cons; auto|].
    split; [lia|].
    unfold BasicBloomFilter.index, hash_sample. f_equal. unfold wrap64. f_equal. lia.
Defined.

Lemma basic_fill_bound_witness :
  exists this : BasicBloomFilter.t,
    BasicBloomFilter.add_all hash_sample
      (BasicBloomFilter.Build (vector_fill 96 false) 96 7) [42; 44; 7] = Ok this /\
    (BasicBloomFilter.popcount (BasicBloomFilter._bits this) <= 21)%nat.
Proof.
  apply (BasicMore.basic_fill_bound hash_sample log_sample
           0x1.47ae147ae147bp-7%float 10
           (BasicBloomFilter.Build (vector_fill 96 false) 96 7) [42; 44; 7]).
  vm_compute. reflexivity.
Defined.

Lemma ordinal_add_exact_witness :
  exists this',
    OrdinalBloomFilter.add hash_sample
      (OrdinalBloomFilter.Build (vector_fill 96 0) 96 7) 42 = Ok this' /\
    length (OrdinalBloomFilter._bits this') = 96%nat /\
    OrdinalBloomFilter.holds_round (OrdinalBloomFilter._bits this') 45 3.
Proof.
  assert (Hreach : OrdinalBloomFilter.reachable hash_sample log_sample
                     0x1.47ae147ae147bp-7%float 10
                     (OrdinalBloomFilter.Build (vector_fill 96 0) 96 7))
    by (apply OrdinalBloomFilter.reachable_ctor; vm_compute; reflexivity).
  destruct (OrdinalMore.ordinal_add_exact hash_sample log_sample _ _ _ 42 Hreach)
    as (this' & Hadd & _ & _ & Hlen & Hset); [simpl; lia|].
  exists this'. split; [exact Hadd|]. split; [exact Hlen|].
  apply Hset. right. exists 3. split; [simpl; lia|]. split; [lia | reflexivity].
Defined.

Lemma ordinal_add_idempotent_commutes_witness :
  (exists this1,
     OrdinalBloomFilter.add hash_sample
       (OrdinalBloomFilter.Build (vector_fill 96 0) 96 7) 42 = Ok this1 /\
     OrdinalBloomFilter.add hash_sample this1 42 = Ok this1) /\
  (exists this',
     (this1 ← OrdinalBloomFilter.add hash_sample
                (OrdinalBloomFilter.Build (vector_fill 96 0) 96 7) 42;
      OrdinalBloomFilter.add hash_sample this1 44) = Ok this' /\
     (this2 ← OrdinalBloomFilter.add hash_sample
                (OrdinalBloomFilter.Build (vector_fill 96 0) 96 7) 44;
      OrdinalBloomFilter.add hash_sample this2 42) = Ok this').
Proof.
  apply (OrdinalMore.ordinal_add_idempotent_commutes hash_sample log_sample
           0x1.47ae147ae147bp-7%float 10).
  - apply OrdinalBloomFilter.reachable_ctor. vm_compute. reflexivity.
  - simpl. lia.
Defined.

Lemma ordinal_membership_exact_witness :
  exists (this : OrdinalBloomFilter.t) (b : bool),
    OrdinalBloomFilter.add_all hash_sample
      (OrdinalBloomFilter.Build (vector_fill 96 0) 96 7) [42; 44] = Ok this /\
    OrdinalBloomFilter.contains hash_sample this 43 = Ok b /\
    b = false.
Proof.
  destruct (OrdinalMore.ordinal_membership_exact hash_sample log_sample
              0x1.47ae147ae147bp-7%float 10
              (OrdinalBloomFilter.Build (vector_fill 96 0) 96 7) [42; 44] 43)
    as (this & b & Hrun & Hc & Hb); [vm_compute; reflexivity | simpl; lia |].
  exists this, b. split; [exact Hrun|]. split; [exact Hc|].
  destruct b; [|reflexivity].
  destruct (proj1 Hb eq_refl 7) as (elem' & r' & He & Hr' & Heq); [simpl; lia|].
  simpl in Hr'. assert (r' = 7) as -> by lia.
  apply elem_of_cons in He as [->|He];
    [vm_compute in Heq; discriminate Heq|].
  apply elem_of_cons in He as [->|He];
    [vm_compute in Heq; discriminate Heq | inversion He].
Defined.

Lemma ordinal_saturated_witness :
  OrdinalBloomFilter.contains hash_sample
    (OrdinalBloomFilter.Build (vector_fill 480 0) 480 333) 42 = Ok false.
Proof.
  apply (OrdinalMore.ordinal_saturated hash_sample log_sample
           0x1.bff2ee48e053p-333%float 1).
  - apply OrdinalBloomFilter.reachable_ctor. vm_compute. reflexivity.
  - simpl. lia.
Defined.

Lemma ordinal_cells_bounded_witness :
  exists this,
    OrdinalBloomFilter.add hash_sample
      (OrdinalBloomFilter.Build (vector_fill 480 0) 480 333) 42 = Ok this /\
    Forall (fun cell => 0 <= cell <= Z.min (OrdinalBloomFilter._hash_func_num this) 255)
      (OrdinalBloomFilter._bits this).
Proof.
  eexists. split; [vm_compute; reflexivity|].
  apply (OrdinalMore.ordinal_cells_bounded hash_sample log_sample
           0x1.bff2ee48e053p-333%float 1).
  eapply OrdinalBloomFilter.reachable_add with (elem := 42).
  - apply OrdinalBloomFilter.reachable_ctor. vm_compute. reflexivity.
  - vm_compute. reflexivity.
Defined.
